(** * Catalogue scraper: retrying fetcher, page extractor, traversal driver

    A shallow embedding of [task-9_3-parsing-1.py].  The program talks to
    four libraries (requests, BeautifulSoup, urllib, pandas); the parts of
    them the program relies on are modelled here, the rest is an interface
    ([Platform]) every theorem is generic in.

    - Python [str] is [string]; a character is a code point below 256.
    - Python [int] is [Z].
    - A row (a [dict] with fixed keys) is a record; the key [page_num],
      which the driver adds later, is an [option].
    - Network I/O is explicit state passing over the server state [net];
      every observable effect (request, sleep, printed line, session
      creation) is an [event] of the returned trace.
    - An uncaught Python exception is the [Raise] branch of [result].
    - [urllib.parse.urljoin] raises [ValueError] on a malformed base or
      reference (an unbalanced bracket in the network location, as in
      [//[]); neither the extractor nor the driver catches it.
    - [session.get] is called with a positive timeout, as requests
      requires; its [RequestException]s are caught by the fetcher.
    - [time.sleep(random.uniform(lo, hi))] is the event [EvSleep (lo, hi)];
      the bounds are taken to be non-negative, as [time.sleep] requires, and
      the duration drawn is not modelled.
    - The [while] loop of the driver need not terminate (a site may link
      pages for ever); it is bounded by a fuel argument and every result
      about it says how much fuel suffices. *)

From Stdlib Require Import ZArith QArith Ascii.
From stdpp Require Import base list strings gmap.

Local Open Scope Z_scope.

(** ** Python strings *)

Module PyStr.

(** [str.isspace] on code points below 256: TAB..CR, FS..US, space,
    NEL (0x85) and NBSP (0xA0). *)
Definition is_space (c : ascii) : bool :=
  let n := nat_of_ascii c in
  ((9 <=? n) && (n <=? 13) || (28 <=? n) && (n <=? 32)
   || (n =? 133) || (n =? 160))%nat.

Fixpoint lstrip (s : string) : string :=
  match s with
  | EmptyString => EmptyString
  | String c s' => if is_space c then lstrip s' else s
  end.

Definition rstrip (s : string) : string :=
  String.rev (lstrip (String.rev s)).

(** [s.strip()] *)
Definition strip (s : string) : string := rstrip (lstrip s).

(** [sep.join(parts)] *)
Fixpoint join (sep : string) (parts : list string) : string :=
  match parts with
  | [] => ""
  | [p] => p
  | p :: rest => p +:+ sep +:+ join sep rest
  end.

(** [re.sub(r"[^\d.]", "", s)]: keep decimal digits and dots. *)
Definition is_digit_or_dot (c : ascii) : bool :=
  let n := nat_of_ascii c in
  ((48 <=? n) && (n <=? 57) || (n =? 46))%nat.

Fixpoint keep_digits_and_dots (s : string) : string :=
  match s with
  | EmptyString => EmptyString
  | String c s' =>
      if is_digit_or_dot c then String c (keep_digits_and_dots s')
      else keep_digits_and_dots s'
  end.

(** Python truthiness of a [str]. *)
Definition nonempty (s : string) : bool :=
  match s with EmptyString => false | String _ _ => true end.

End PyStr.

(** ** Exceptions and results *)

Inductive exn :=
| AttributeError (msg : string)
| KeyError (key : string)
| ValueError (msg : string).

Inductive result (A : Type) :=
| Ok (a : A)
| Raise (e : exn).
Arguments Ok {A} a.
Arguments Raise {A} e.

Definition rbind {A B} (r : result A) (k : A → result B) : result B :=
  match r with
  | Ok a => k a
  | Raise e => Raise e
  end.

Notation "x ←! r ; k" := (rbind r (λ x, k))
  (at level 20, r at level 100, k at level 200, right associativity,
   format "x  ←!  r ;  '/' k").

(** [for x in xs: ... append(f x)], stopping at the first exception. *)
Fixpoint for_each {A B} (f : A → result B) (xs : list A) : result (list B) :=
  match xs with
  | [] => Ok []
  | x :: xs' => y ←! f x; ys ←! for_each f xs'; Ok (y :: ys)
  end.

(** ** The parsed document (BeautifulSoup with [html.parser])

    The tree builder stores the [class] attribute as a list of tokens and
    every attribute the program reads by name ([title], [href]) as a string;
    the type records exactly that.  [Special] stands for the string kinds
    [get_text] leaves out (comments, doctype, script and style bodies). *)

Module Soup.

#[warnings="-register-all"]
Inductive node :=
| Tag (name : string) (classes : option (list string))
      (attrs : list (string * string)) (children : list node)
| Text (s : string)
| Special (s : string).

(** The class tokens; an absent attribute reads as [[]], as in
    [tag.get("class", [])]. *)
Definition get_classes (n : node) : list string :=
  match n with
  | Tag _ (Some cs) _ _ => cs
  | _ => []
  end.

Fixpoint assoc (key : string) (d : list (string * string)) : option string :=
  match d with
  | [] => None
  | (k, v) :: d' => if String.eqb k key then Some v else assoc key d'
  end.

Definition attrs_of (n : node) : list (string * string) :=
  match n with Tag _ _ a _ => a | _ => [] end.

(** [tag.get(key, default)] *)
Definition get (n : node) (key default : string) : string :=
  match assoc key (attrs_of n) with
  | Some v => v
  | None => default
  end.

(** [tag[key]] *)
Definition getitem (n : node) (key : string) : result string :=
  match assoc key (attrs_of n) with
  | Some v => Ok v
  | None => Raise (KeyError key)
  end.

(** Every (parent, child) edge below [n], children in document order. *)
Fixpoint edges (n : node) : list (node * node) :=
  match n with
  | Tag _ _ _ cs => flat_map (λ c, (n, c) :: edges c) cs
  | _ => []
  end.

(** [tag.descendants] *)
Definition descendants (n : node) : list node := (edges n).*2.

Definition is_tag (nm : string) (n : node) : bool :=
  match n with
  | Tag nm' _ _ _ => String.eqb nm' nm
  | _ => false
  end.

Definition has_class (c : string) (n : node) : bool :=
  existsb (String.eqb c) (get_classes n).

(** The compound selector [name.c1.c2...]. *)
Definition matches (nm : string) (cs : list string) (n : node) : bool :=
  is_tag nm n && forallb (λ c, has_class c n) cs.

(** [tag.find(nm)], also written [tag.nm]: first descendant tag so named. *)
Definition find (nm : string) (n : node) : option node :=
  List.find (is_tag nm) (descendants n).

(** [tag.select("name.c1.c2")] and [tag.select_one(...)]. *)
Definition select (nm : string) (cs : list string) (n : node) : list node :=
  List.filter (matches nm cs) (descendants n).

Definition select_one (nm : string) (cs : list string) (n : node) : option node :=
  head (select nm cs n).

(** [tag.select_one("pname.pclass > cname")] *)
Definition select_one_child (pname : string) (pcs : list string)
    (cname : string) (n : node) : option node :=
  head (List.filter (is_tag cname)
          (List.filter (λ e, matches pname pcs e.1) (edges n)).*2).

(** The strings [get_text] visits. *)
Definition text_of (n : node) : option string :=
  match n with Text s => Some s | _ => None end.

Definition all_strings (strip : bool) (n : node) : list string :=
  let raw := omap text_of (descendants n) in
  if strip then List.filter PyStr.nonempty (PyStr.strip <$> raw) else raw.

(** [tag.get_text(separator, strip=...)] *)
Definition get_text (separator : string) (strip : bool) (n : node) : string :=
  PyStr.join separator (all_strings strip n).

End Soup.

(** ** Configuration, responses, rows *)

(** [ParserConfig] (a frozen dataclass). *)
Record ParserConfig := {
  base_url : string;
  headers : list (string * string);
  delay_seconds : Q * Q;
  max_retries : Z;
  timeout_seconds : Z;
  retry_statuses : list Z;
}.

(** The two fields of [requests.Response] the program reads. *)
Record Response := {
  status_code : Z;
  text : string;
}.

(** How one [session.get] ends: a response, or a [RequestException]
    (the class name and message are kept for the log). *)
Inductive outcome :=
| Responded (r : Response)
| RequestException (kind msg : string).

(** One row of the page extractor; [page_num] is the key the driver adds. *)
Record book_row := {
  title : string;
  price_raw : string;
  availability : string;
  rating : string;
  product_url : string;
  page_num : option Z;
}.

(** [r["page_num"] = n] *)
Definition set_page_num (n : Z) (r : book_row) : book_row :=
  {| title := title r; price_raw := price_raw r;
     availability := availability r; rating := rating r;
     product_url := product_url r; page_num := Some n |}.

(** ** Observable effects *)

Inductive log_line :=
| LogRetry (url : string) (status attempt of_max : Z)
| LogFail (url : string) (status : Z)
| LogError (url kind msg : string) (attempt of_max : Z)
| LogPage (n : Z) (url : string)
| LogSkip (url : string)
| LogStop.

Inductive event :=
| EvSessionNew
| EvSessionClose
| EvGet (url : string) (hdrs : list (string * string)) (timeout : Z)
| EvSleep (bounds : Q * Q)
| EvPrint (l : log_line).

Definition is_get (e : event) : bool :=
  match e with EvGet _ _ _ => true | _ => false end.

Definition is_sleep (e : event) : bool :=
  match e with EvSleep _ => true | _ => false end.



(** Number of HTTP requests issued in a trace. *)
Definition attempts_made (tr : list event) : nat :=
  length (List.filter is_get tr).

Definition sleeps_taken (tr : list event) : nat :=
  length (List.filter is_sleep tr).


(** ** The libraries the program stands on

    [net] is the state of everything behind the socket; [session_get]
    performs one [session.get(url, headers=..., timeout=...)] against it.
    [html_parser] is [BeautifulSoup(html, "html.parser")]; [urljoin_rfc] is
    the RFC 3986 reference resolution [urllib.parse.urljoin] performs on two
    non-empty strings, which ends in a URL or in the [ValueError] urllib
    raises on a malformed one (an unmatched bracket in the host, as in
    [//[]); [to_numeric] is [pd.to_numeric(..., errors="coerce")] on one
    cell, [None] for NaN. *)
Inductive resolution :=
| Resolved (url : string)
| Malformed (msg : string).

Class Platform := {
  net : Type;
  session_get : net → string → list (string * string) → Z → outcome * net;
  html_parser : string → Soup.node;
  urljoin_rfc : string → string → resolution;
  number : Type;
  to_numeric : string → option number;
}.

(** [DEFAULT_CONFIG] *)
Definition DEFAULT_CONFIG : ParserConfig := {|
  base_url := "https://books.toscrape.com/";
  headers :=
    [("User-Agent",
      "Mozilla/5.0 (Windows NT 10.0; Win64; x64) AppleWebKit/537.36 (KHTML, like Gecko) Chrome/120.0.0.0 Safari/537.36");
     ("Accept", "text/html,application/xhtml+xml,application/xml;q=0.9,*/*;q=0.8");
     ("Accept-Language", "en-US,en;q=0.9");
     ("Connection", "keep-alive");
     ("Referer", "https://www.google.com/")];
  delay_seconds := (3 # 2, 7 # 2)%Q;
  max_retries := 5;
  timeout_seconds := 20;
  retry_statuses := [403; 408; 429; 500; 502; 503; 504];
|}.

(** ** pandas: [drop_duplicates(subset=[key])]

    A frame is the list of its rows in index order.  With the default
    [keep="first"] a row is dropped exactly when an earlier row has the same
    key; [reset_index(drop=True)] renumbers the index and is the identity on
    the list. *)
Fixpoint drop_duplicates_from {A} (key : A → string) (seen : gset string)
    (df : list A) : list A :=
  match df with
  | [] => []
  | r :: df' =>
      if bool_decide (key r ∈ seen) then drop_duplicates_from key seen df'
      else r :: drop_duplicates_from key ({[key r]} ∪ seen) df'
  end.

Definition drop_duplicates {A} (key : A → string) (df : list A) : list A :=
  drop_duplicates_from key ∅ df.

Section Scraper.
Context `{Platform}.

(** [urllib.parse.urljoin]: the two early returns of the library function,
    then the RFC resolution, whose [ValueError] is let through. *)
Definition urljoin (base url : string) : result string :=
  if negb (PyStr.nonempty base) then Ok url
  else if negb (PyStr.nonempty url) then Ok base
  else match urljoin_rfc base url with
       | Resolved u => Ok u
       | Malformed msg => Raise (ValueError msg)
       end.

(** [sleep_human]: the pause is recorded with its bounds; the duration drawn
    from them is not modelled. *)
Definition sleep_human (min_max : Q * Q) : list event := [EvSleep min_max].

(** *** 2) HTTP client with retries *)

(** The body of [for attempt in range(1, config.max_retries + 1)], with
    [remaining] iterations left. *)
Fixpoint fetch_attempts (url : string) (config : ParserConfig)
    (remaining : nat) (attempt : Z) (n : net)
    : option Response * net * list event :=
  match remaining with
  | O => (None, n, [])
  | S remaining' =>
      let '(o, n1) :=
        session_get n url (headers config) (timeout_seconds config) in
      let ev := EvGet url (headers config) (timeout_seconds config) in
      match o with
      | Responded response =>
          if status_code response =? 200 then (Some response, n1, [ev])
          else if bool_decide (status_code response ∈ retry_statuses config)
          then
            let '(r, n2, tr) :=
              fetch_attempts url config remaining' (attempt + 1) n1 in
            (r, n2,
             ev :: EvPrint (LogRetry url (status_code response) attempt
                              (max_retries config))
                :: sleep_human (delay_seconds config) ++ tr)
          else
            (None, n1, [ev; EvPrint (LogFail url (status_code response))])
      | RequestException kind msg =>
          let '(r, n2, tr) :=
            fetch_attempts url config remaining' (attempt + 1) n1 in
          (r, n2,
           ev :: EvPrint (LogError url kind msg attempt (max_retries config))
              :: sleep_human (delay_seconds config) ++ tr)
      end
  end.

Definition fetch_with_retries (url : string) (config : ParserConfig) (n : net)
    : option Response * net * list event :=
  fetch_attempts url config (Z.to_nat (max_retries config)) 1 n.

(** *** 3) Parsing one catalogue page *)

(** [next((c for c in classes if c != "star-rating"), "")] *)
Definition rating_of (classes : list string) : string :=
  default "" (head (List.filter (λ c, negb (String.eqb c "star-rating")) classes)).

(** The body of [for card in book_cards]. *)
Definition parse_card (page_url : string) (card : Soup.node) : result book_row :=
  match Soup.find "h3" card with
  | None => Raise (AttributeError "'NoneType' object has no attribute 'a'")
  | Some h3 =>
      match Soup.find "a" h3 with
      | None => Raise (AttributeError "'NoneType' object has no attribute 'get'")
      | Some a =>
          let title := PyStr.strip (Soup.get a "title" "") in
          let rel_link := PyStr.strip (Soup.get a "href" "") in
          product_url ←! urljoin page_url rel_link;
          let price :=
            match Soup.select_one "p" ["price_color"] card with
            | Some price_text => Soup.get_text "" true price_text
            | None => ""
            end in
          let availability :=
            match Soup.select_one "p" ["instock"; "availability"] card with
            | Some availability_tag => Soup.get_text " " true availability_tag
            | None => ""
            end in
          let rating :=
            match Soup.select_one "p" ["star-rating"] card with
            | Some rating_tag => rating_of (Soup.get_classes rating_tag)
            | None => ""
            end in
          Ok {| title := title; price_raw := price;
                availability := availability; rating := rating;
                product_url := product_url; page_num := None |}
      end
  end.

(** The extractor on an already parsed document. *)
Definition parse_books_from_soup (soup : Soup.node) (page_url : string)
    : result (list book_row * option string) :=
  let book_cards := Soup.select "article" ["product_pod"] soup in
  rows ←! for_each (parse_card page_url) book_cards;
  match Soup.select_one_child "li" ["next"] "a" soup with
  | Some next_link_tag =>
      href ←! Soup.getitem next_link_tag "href";
      next_url ←! urljoin page_url href;
      Ok (rows, Some next_url)
  | None => Ok (rows, None)
  end.

Definition parse_books_from_catalog_page (html page_url : string)
    : result (list book_row * option string) :=
  parse_books_from_soup (html_parser html) page_url.

(** *** 4) Pagination *)

(** The test of [while current_url:]: the URL when it is truthy. *)
Definition while_url (current_url : option string) : option string :=
  match current_url with
  | Some u => if PyStr.nonempty u then Some u else None
  | None => None
  end.

(** The [while] loop of [scrape_all_books].  [fuel] bounds the number of
    times the loop test is evaluated; [None] means the bound was hit. *)
Fixpoint scrape_loop (fuel : nat) (config : ParserConfig)
    (current_url : option string) (page_num : Z) (all_rows : list book_row)
    (n : net) : option (result (list book_row) * net * list event) :=
  match fuel with
  | O => None
  | S fuel' =>
      match while_url current_url with
      | None => Some (Ok all_rows, n, [])
      | Some url =>
          let page_num := page_num + 1 in
          let '(response, n1, tr1) := fetch_with_retries url config n in
          let tr := EvPrint (LogPage page_num url) :: tr1 in
          match response with
          | None => Some (Ok all_rows, n1, tr ++ [EvPrint (LogSkip url)])
          | Some response =>
              match parse_books_from_catalog_page (text response) url with
              | Raise e => Some (Raise e, n1, tr)
              | Ok (rows, next_url) =>
                  let rows := set_page_num page_num <$> rows in
                  let all_rows := all_rows ++ rows in
                  match rows with
                  | [] => Some (Ok all_rows, n1, tr ++ [EvPrint LogStop])
                  | _ :: _ =>
                      match scrape_loop fuel' config next_url page_num
                              all_rows n1 with
                      | None => None
                      | Some (r, n2, tr2) =>
                          Some (r, n2,
                                tr ++ sleep_human (delay_seconds config) ++ tr2)
                      end
                  end
              end
          end
      end
  end.

(** [scrape_all_books]; the returned frame is the list [all_rows].  The
    session exists before the first URL is resolved, so a [ValueError] of
    that [urljoin] leaves it created. *)
Definition scrape_all_books (fuel : nat) (config : ParserConfig) (n : net)
    : option (result (list book_row) * net * list event) :=
  match urljoin (base_url config) "catalogue/page-1.html" with
  | Raise e => Some (Raise e, n, [EvSessionNew])
  | Ok current_url =>
      match scrape_loop fuel config (Some current_url) 0 [] n with
      | None => None
      | Some (r, n', tr) => Some (r, n', EvSessionNew :: tr)
      end
  end.

(** *** 5) Cleaning *)

(** A row of the cleaned frame: the raw columns and [price_gbp]. *)
Record clean_row := {
  raw : book_row;
  price_gbp : option number;
}.

Definition add_price_gbp (r : book_row) : clean_row :=
  {| raw := r;
     price_gbp := to_numeric (PyStr.keep_digits_and_dots (price_raw r)) |}.

(** The step [df.drop_duplicates(subset=["product_url"]).reset_index(drop=True)]. *)
Definition dedup_by_product_url (df : list clean_row) : list clean_row :=
  drop_duplicates (λ r, product_url (raw r)) df.

(** [clean_and_validate]; the printed quality ratios and the aggregation
    table (floating-point means, output only) are left out. *)
Definition clean_and_validate (df : list book_row) : result (list clean_row) :=
  match df with
  | [] => Raise (ValueError "No data scraped: dataframe is empty")
  | _ :: _ => Ok (dedup_by_product_url (add_price_gbp <$> df))
  end.

End Scraper.

(** ** Vocabulary of the properties *)

Section Vocabulary.
Context `{Platform}.

(** The outcomes of the next [k] requests for [url] and the server state
    they leave behind. *)
Fixpoint replay (url : string) (config : ParserConfig) (k : nat) (n : net)
    : list outcome * net :=
  match k with
  | O => ([], n)
  | S k' =>
      let '(o, n1) :=
        session_get n url (headers config) (timeout_seconds config) in
      let '(os, n2) := replay url config k' n1 in
      (o :: os, n2)
  end.

(** A retryable outcome: a response whose status is in the retryable set,
    or a network-level error. *)
Definition retryable (config : ParserConfig) (o : outcome) : bool :=
  match o with
  | Responded r => bool_decide (status_code r ∈ retry_statuses config)
  | RequestException _ _ => true
  end.

Definition is_200 (o : outcome) : bool :=
  match o with
  | Responded r => status_code r =? 200
  | RequestException _ _ => false
  end.

(** A retryable outcome that is not a status-200 response. *)
Definition retried (config : ParserConfig) (o : outcome) : bool :=
  retryable config o && negb (is_200 o).

(** A status that is neither 200 nor retryable. *)
Definition fatal_status (config : ParserConfig) (r : Response) : Prop :=
  status_code r ≠ 200 ∧ status_code r ∉ retry_statuses config.

(** The link the extractor reads the title and the product link from:
    [card.h3.a]. *)
Definition heading_link (card : Soup.node) : option Soup.node :=
  h3 ← Soup.find "h3" card; Soup.find "a" h3.

Definition link_attr (key : string) (card : Soup.node) : option string :=
  a ← heading_link card; Soup.assoc key (Soup.attrs_of a).

(** The item cards of a document, in document order. *)
Definition item_cards (soup : Soup.node) : list Soup.node :=
  Soup.select "article" ["product_pod"] soup.

(** A card with a heading link carrying a [title] and an [href]. *)
Definition well_formed_card (card : Soup.node) : Prop :=
  is_Some (link_attr "title" card) ∧ is_Some (link_attr "href" card).

(** A card whose heading link carries a [title] that is not blank. *)
Definition titled_card (card : Soup.node) : Prop :=
  ∃ t, link_attr "title" card = Some t ∧ PyStr.strip t ≠ "".

(** [urljoin] resolves the reference against the page URL (it does not
    raise). *)
Definition resolves (page_url ref : string) : Prop :=
  ∃ u, urljoin page_url ref = Ok u.

(** The [href] of a card's heading link, trimmed, resolves. *)
Definition card_resolves (page_url : string) (card : Soup.node) : Prop :=
  ∀ h, link_attr "href" card = Some h → resolves page_url (PyStr.strip h).

(** The [href] of the pagination anchor, as written, resolves. *)
Definition next_resolves (page_url : string) (soup : Soup.node) : Prop :=
  ∀ a h, Soup.select_one_child "li" ["next"] "a" soup = Some a →
         Soup.assoc "href" (Soup.attrs_of a) = Some h →
         resolves page_url h.

(** What the extractor promises about the row of a well-formed card. *)
Definition well_formed_row (page_url : string) (card : Soup.node)
    (row : book_row) : Prop :=
  title row ≠ ""
  ∧ (∀ h, link_attr "href" card = Some h →
          urljoin page_url (PyStr.strip h) = Ok (product_url row))
  ∧ (Soup.select_one "p" ["star-rating"] card = None → rating row = "").

(** What the extractor gives for the sources a card lacks. *)
Definition degraded_row (page_url : string) (card : Soup.node)
    (row : book_row) : Prop :=
  (Soup.select_one "p" ["price_color"] card = None → price_raw row = "")
  ∧ (Soup.select_one "p" ["instock"; "availability"] card = None →
     availability row = "")
  ∧ (Soup.select_one "p" ["star-rating"] card = None → rating row = "")
  ∧ (link_attr "title" card = None → title row = "")
  ∧ (link_attr "href" card = None → product_url row = page_url).

(** The pagination anchor, when there is one, carries an [href]. *)
Definition next_link_ok (soup : Soup.node) : Prop :=
  ∀ a, Soup.select_one_child "li" ["next"] "a" soup = Some a →
       is_Some (Soup.assoc "href" (Soup.attrs_of a)).

(** The frame a run returns after the given pages, the first of them being
    page number [first]: the pages' rows in page-then-card order, each
    tagged with the 1-based ordinal of its page. *)
Definition tag_pages (first : Z) (pages : list (list book_row)) : list book_row :=
  concat (imap (λ i rows, set_page_num (first + Z.of_nat i) <$> rows) pages).

(** How a traversal ends. *)
Inductive ending :=
| Complete
| FetchFailed
| EmptyPage.

(** [crawl config n url pages e n' reqs]: starting at [url] against server
    state [n], the pages of [pages] are fetched and parse to at least one
    row each, every one but the last linking to the next; then the
    traversal ends as [e] says: the last page of [pages] has no next link
    ([Complete]), or the fetch of the page after them fails ([FetchFailed]),
    or that page parses to zero rows ([EmptyPage]).  [n'] is the server
    state after the last fetch and [reqs] the number of requests all these
    fetches issue. *)
Inductive crawl (config : ParserConfig)
    : net → string → list (list book_row) → ending → net → nat → Prop :=
| crawl_fetch_failed n url n' tr :
    url ≠ "" →
    fetch_with_retries url config n = (None, n', tr) →
    crawl config n url [] FetchFailed n' (attempts_made tr)
| crawl_empty_page n url response n' tr next_url :
    url ≠ "" →
    fetch_with_retries url config n = (Some response, n', tr) →
    parse_books_from_catalog_page (text response) url = Ok ([], next_url) →
    crawl config n url [] EmptyPage n' (attempts_made tr)
| crawl_last_page n url response n' tr rows :
    url ≠ "" →
    fetch_with_retries url config n = (Some response, n', tr) →
    parse_books_from_catalog_page (text response) url = Ok (rows, None) →
    rows ≠ [] →
    crawl config n url [rows] Complete n' (attempts_made tr)
| crawl_next_page n url response n1 tr rows next_url pages e n2 reqs :
    url ≠ "" →
    fetch_with_retries url config n = (Some response, n1, tr) →
    parse_books_from_catalog_page (text response) url
      = Ok (rows, Some next_url) →
    rows ≠ [] →
    crawl config n1 next_url pages e n2 reqs →
    crawl config n url (rows :: pages) e n2 (attempts_made tr + reqs).

(** The URL of the first catalogue page, when [urljoin] gives one. *)
Definition first_url (config : ParserConfig) : result string :=
  urljoin (base_url config) "catalogue/page-1.html".

(** The columns of a row that the extractor fills. *)
Definition extracted_fields (r : book_row)
    : string * string * string * string * string :=
  (title r, price_raw r, availability r, rating r, product_url r).

End Vocabulary.

(** ** A concrete platform for worked examples

    A scripted server (each request consumes the next scripted outcome), a
    handful of documents given as HTML text together with the tree
    [html.parser] builds for them, and a resolver that covers the one case
    the examples use (a plain relative reference replaces the last path
    segment of the base). *)

Module Fixture.
Import Soup.

Definition scripted_get (script : list outcome) (url : string)
    (hdrs : list (string * string)) (timeout : Z) : outcome * list outcome :=
  match script with
  | o :: rest => (o, rest)
  | [] => (RequestException "ConnectTimeout" "timed out", [])
  end.

Fixpoint from_last_slash (rev_base : string) : string :=
  match rev_base with
  | EmptyString => EmptyString
  | String c s' =>
      if Ascii.eqb c "/"%char then rev_base else from_last_slash s'
  end.

Definition replace_last_segment (base url : string) : string :=
  String.rev (from_last_slash (String.rev base)) +:+ url.

(** The resolver of the examples: a reference that opens a bracketed host
    and never closes it ([//[...]) is malformed, as urllib finds it; any
    other is taken as a plain relative reference. *)
Definition resolve (base url : string) : resolution :=
  if String.prefix "//[" url
  then Malformed "Invalid IPv6 URL"
  else Resolved (replace_last_segment base url).

Definition document (children : list node) : node :=
  Tag "[document]" None [] children.

Definition card (link_attrs : list (string * string)) (extra : list node) : node :=
  Tag "article" (Some ["product_pod"]) []
    (Tag "h3" None [] [Tag "a" None link_attrs []] :: extra).

Definition next_link (href : string) : node :=
  Tag "li" (Some ["next"]) [] [Tag "a" None [("href", href)] [Text "next"]].

(** [<article class='product_pod'><h3><a href='a.html' title='A'></a></h3>
     <p class='star-rating Three'></p><p class='price_color'>10.00</p>
     <p class='instock availability'> In stock </p></article>
     <article class='product_pod'><h3><a href='b.html' title='B'></a></h3></article>
     <li class='next'><a href='page-2.html'>next</a></li>] *)
Definition page1_html : string :=
  "<article class='product_pod'><h3><a href='a.html' title='A'></a></h3><p class='star-rating Three'></p><p class='price_color'>10.00</p><p class='instock availability'> In stock </p></article><article class='product_pod'><h3><a href='b.html' title='B'></a></h3></article><li class='next'><a href='page-2.html'>next</a></li>".

Definition page1_soup : node :=
  document
    [card [("href", "a.html"); ("title", "A")]
       [Tag "p" (Some ["star-rating"; "Three"]) [] [];
        Tag "p" (Some ["price_color"]) [] [Text "10.00"];
        Tag "p" (Some ["instock"; "availability"]) [] [Text " In stock "]];
     card [("href", "b.html"); ("title", "B")] [];
     next_link "page-2.html"].

Definition page2_html : string :=
  "<article class='product_pod'><h3><a href='c.html' title='C'></a></h3></article>".

Definition page2_soup : node :=
  document [card [("href", "c.html"); ("title", "C")] []].

(** A card whose link has an empty [title]. *)
Definition blank_title_html : string :=
  "<article class='product_pod'><h3><a href='a.html' title=''></a></h3></article>".

Definition blank_title_soup : node :=
  document [card [("href", "a.html"); ("title", "")] []].

(** A card whose link has no [href]. *)
Definition no_href_html : string :=
  "<article class='product_pod'><h3><a title='A'></a></h3></article>".

Definition no_href_soup : node :=
  document [card [("title", "A")] []].

(** A card without price next to a card without a heading. *)
Definition no_heading_html : string :=
  "<article class='product_pod'><h3><a href='a.html' title='A'></a></h3></article><article class='product_pod'></article>".

Definition no_heading_soup : node :=
  document [card [("href", "a.html"); ("title", "A")] [];
            Tag "article" (Some ["product_pod"]) [] []].

(** A well-formed card followed by a pagination anchor without [href]. *)
Definition no_next_href_html : string :=
  "<article class='product_pod'><h3><a href='a.html' title='A'></a></h3></article><li class='next'><a>next</a></li>".

Definition no_next_href_soup : node :=
  document [card [("href", "a.html"); ("title", "A")] [];
            Tag "li" (Some ["next"]) [] [Tag "a" None [] [Text "next"]]].

(** A card whose link has an [href] urllib rejects. *)
Definition bad_href_html : string :=
  "<article class='product_pod'><h3><a href='//[' title='A'></a></h3></article>".

Definition bad_href_soup : node :=
  document [card [("href", "//["); ("title", "A")] []].

(** A page without cards. *)
Definition empty_html : string := "<p>Access denied</p>".

Definition empty_soup : node :=
  document [Tag "p" None [] [Text "Access denied"]].

Definition documents : list (string * node) :=
  [(page1_html, page1_soup); (page2_html, page2_soup);
   (blank_title_html, blank_title_soup); (no_href_html, no_href_soup);
   (no_heading_html, no_heading_soup);
   (no_next_href_html, no_next_href_soup);
   (bad_href_html, bad_href_soup); (empty_html, empty_soup)].

Fixpoint lookup_document (html : string) (table : list (string * node)) : node :=
  match table with
  | [] => document [Text html]
  | (h, d) :: table' =>
      if String.eqb h html then d else lookup_document html table'
  end.

Definition platform : Platform := {|
  net := list outcome;
  session_get := scripted_get;
  html_parser := λ html, lookup_document html documents;
  urljoin_rfc := resolve;
  number := string;
  to_numeric := λ s, if PyStr.nonempty s then Some s else None;
|}.

Definition ok200 (body : string) : outcome :=
  Responded {| status_code := 200; text := body |}.

Definition status (code : Z) : outcome :=
  Responded {| status_code := code; text := "" |}.

Definition timeout_error : outcome :=
  RequestException "ReadTimeout" "read timed out".

Definition config_with (retries : Z) (statuses : list Z) : ParserConfig := {|
  base_url := base_url DEFAULT_CONFIG;
  headers := headers DEFAULT_CONFIG;
  delay_seconds := delay_seconds DEFAULT_CONFIG;
  max_retries := retries;
  timeout_seconds := timeout_seconds DEFAULT_CONFIG;
  retry_statuses := statuses;
|}.

Definition page1_url : string :=
  "https://books.toscrape.com/catalogue/page-1.html".

(** The rows of the two fixture pages, as the extractor returns them. *)
Definition row_a : book_row :=
  {| title := "A"; price_raw := "10.00"; availability := "In stock";
     rating := "Three";
     product_url := "https://books.toscrape.com/catalogue/a.html";
     page_num := None |}.

Definition row_b : book_row :=
  {| title := "B"; price_raw := ""; availability := ""; rating := "";
     product_url := "https://books.toscrape.com/catalogue/b.html";
     page_num := None |}.

Definition row_c : book_row :=
  {| title := "C"; price_raw := ""; availability := ""; rating := "";
     product_url := "https://books.toscrape.com/catalogue/c.html";
     page_num := None |}.

Definition priced (r : book_row) (p : option string) : @clean_row platform :=
  @Build_clean_row platform r p.

End Fixture.

(** ** 6) Filtering for the database

    [df["availability"].str.contains("In stock", case=False, na=False)] is a
    regular-expression search for a pattern without metacharacters, ignoring
    case: a case-insensitive substring test.  On code points below 256 the
    only characters that differ in case from the pattern's are the ASCII
    capitals. *)

Module PyRe.

Definition lower (c : ascii) : ascii :=
  let n := nat_of_ascii c in
  if ((65 <=? n) && (n <=? 90))%nat then ascii_of_nat (n + 32) else c.

(** [s.lower()] on ASCII letters. *)
Fixpoint lower_string (s : string) : string :=
  match s with
  | EmptyString => EmptyString
  | String c s' => String (lower c) (lower_string s')
  end.

(** [re.match(pat, s, re.I)] for a literal [pat]. *)
Fixpoint match_ci (pat s : string) : bool :=
  match pat, s with
  | EmptyString, _ => true
  | String _ _, EmptyString => false
  | String p pat', String c s' =>
      Ascii.eqb (lower p) (lower c) && match_ci pat' s'
  end.

(** [re.search(pat, s, re.I)] for a literal [pat]. *)
Fixpoint search_ci (pat s : string) : bool :=
  match_ci pat s
  || match s with
     | EmptyString => false
     | String _ s' => search_ci pat s'
     end.

End PyRe.

Section Pipeline.
Context `{Platform}.

(** [x < bound] on a parsed price (a float comparison; NaN is handled by
    [notna()] before it). *)
Variable number_lt : number → Z → bool.

Definition mask_in_stock (r : clean_row) : bool :=
  PyRe.search_ci "In stock" (availability (raw r)).

Definition mask_price (r : clean_row) : bool :=
  match price_gbp r with
  | Some p => number_lt p 30
  | None => false
  end.

(** [filter_for_db]: the rows in stock and cheaper than 30. *)
Definition filter_for_db (df : list clean_row) : list clean_row :=
  List.filter (λ r, mask_in_stock r && mask_price r) df.

End Pipeline.

(** ** Vocabulary of further properties *)

Section MoreVocabulary.
Context `{Platform}.

(** The page number a row carries, 0 when it carries none. *)
Definition page_of (r : book_row) : Z := default 0 (page_num r).

Definition is_page_line (e : event) : bool :=
  match e with EvPrint (LogPage _ _) => true | _ => false end.

(** Number of pages a run started on. *)
Definition pages_visited (tr : list event) : nat :=
  length (List.filter is_page_line tr).

(** Whether the program has paused since its last request, after [tr]. *)
Fixpoint rested_after (rested : bool) (tr : list event) : bool :=
  match tr with
  | [] => rested
  | EvGet _ _ _ :: tr' => rested_after false tr'
  | EvSleep _ :: tr' => rested_after true tr'
  | _ :: tr' => rested_after rested tr'
  end.

(** No request is issued without a pause since the request before it. *)
Fixpoint paced (rested : bool) (tr : list event) : bool :=
  match tr with
  | [] => true
  | EvGet _ _ _ :: tr' => rested && paced false tr'
  | EvSleep _ :: tr' => paced true tr'
  | _ :: tr' => paced rested tr'
  end.

(** [reaches config n url pages n' url']: starting at [url] against server
    state [n], the pages of [pages] are fetched and parse to at least one
    row each, each linking to the next; the link of the last one is [url']
    and [n'] is the server state by then. *)
Inductive reaches (config : ParserConfig)
    : net → string → list (list book_row) → net → string → Prop :=
| reaches_here n url : reaches config n url [] n url
| reaches_next n url response n1 tr rows next_url pages n2 url2 :
    url ≠ "" →
    fetch_with_retries url config n = (Some response, n1, tr) →
    parse_books_from_catalog_page (text response) url
      = Ok (rows, Some next_url) →
    rows ≠ [] →
    reaches config n1 next_url pages n2 url2 →
    reaches config n url (rows :: pages) n2 url2.

(** The events of the first [fuel] passes through the [while] loop of
    [scrape_all_books], kept whether or not the loop has ended by then: what
    a run has done so far, also when it never returns. *)
Fixpoint scrape_events (fuel : nat) (config : ParserConfig)
    (current_url : option string) (page_num : Z) (n : net) : list event :=
  match fuel with
  | O => []
  | S fuel' =>
      match while_url current_url with
      | None => []
      | Some url =>
          let page_num := page_num + 1 in
          let '(response, n1, tr1) := fetch_with_retries url config n in
          let tr := EvPrint (LogPage page_num url) :: tr1 in
          match response with
          | None => tr ++ [EvPrint (LogSkip url)]
          | Some response =>
              match parse_books_from_catalog_page (text response) url with
              | Raise e => tr
              | Ok (rows, next_url) =>
                  match rows with
                  | [] => tr ++ [EvPrint LogStop]
                  | _ :: _ =>
                      tr ++ sleep_human (delay_seconds config)
                         ++ scrape_events fuel' config next_url page_num n1
                  end
              end
          end
      end
  end.

(** The events of [scrape_all_books] up to the first [fuel] passes. *)
Definition run_events (fuel : nat) (config : ParserConfig) (n : net)
    : list event :=
  EvSessionNew
    :: match first_url config with
       | Ok url0 => scrape_events fuel config (Some url0) 0 n
       | Raise _ => []
       end.

(** Requests issued before the next page line of a trace. *)
Fixpoint requests_before_page (tr : list event) : nat :=
  match tr with
  | [] => 0
  | EvPrint (LogPage _ _) :: _ => 0
  | EvGet _ _ _ :: tr' => S (requests_before_page tr')
  | _ :: tr' => requests_before_page tr'
  end.

(** The number of requests issued for each page visited, in order: those
    between its page line and the next. *)
Fixpoint requests_by_page (tr : list event) : list nat :=
  match tr with
  | [] => []
  | EvPrint (LogPage _ _) :: tr' =>
      requests_before_page tr' :: requests_by_page tr'
  | _ :: tr' => requests_by_page tr'
  end.

(** A string without white space at either end. *)
Definition trimmed (s : string) : Prop := PyStr.strip s = s.

(** A string that starts with a character other than white space. *)
Definition solid_start (s : string) : Prop :=
  ∃ c s', s = String c s' ∧ PyStr.is_space c = false.

(** A card has the link its row is read from. *)
Definition has_heading_link (card : Soup.node) : Prop :=
  is_Some (heading_link card).

(** [urljoin] raises on the trimmed [href] of a card's heading link. *)
Definition card_rejected (page_url : string) (card : Soup.node) : Prop :=
  ∃ h msg, link_attr "href" card = Some h
           ∧ urljoin page_url (PyStr.strip h) = Raise (ValueError msg).

(** [urljoin] raises on the [href] of the pagination anchor. *)
Definition next_rejected (page_url : string) (soup : Soup.node) : Prop :=
  ∃ a h msg, Soup.select_one_child "li" ["next"] "a" soup = Some a
             ∧ Soup.assoc "href" (Soup.attrs_of a) = Some h
             ∧ urljoin page_url h = Raise (ValueError msg).

(** The configuration with another retry count. *)
Definition with_max_retries (R : Z) (config : ParserConfig) : ParserConfig :=
  {| base_url := base_url config; headers := headers config;
     delay_seconds := delay_seconds config; max_retries := R;
     timeout_seconds := timeout_seconds config;
     retry_statuses := retry_statuses config |}.

End MoreVocabulary.

(** A site for the worked examples whose only page links to itself: the
    server answers every request with the same document,
    [<article class='product_pod'><h3><a href='a.html' title='A'></a></h3>
     </article><li class='next'><a href=''>next</a></li>]. *)
Module LoopFixture.

Definition self_link_html : string :=
  "<article class='product_pod'><h3><a href='a.html' title='A'></a></h3></article><li class='next'><a href=''>next</a></li>".

Definition self_link_soup : Soup.node :=
  Fixture.document
    [Fixture.card [("href", "a.html"); ("title", "A")] [];
     Fixture.next_link ""].

Definition platform : Platform := {|
  net := unit;
  session_get := λ n url hdrs timeout, (Fixture.ok200 self_link_html, n);
  html_parser := λ html, self_link_soup;
  urljoin_rfc := Fixture.resolve;
  number := string;
  to_numeric := λ s, if PyStr.nonempty s then Some s else None;
|}.

End LoopFixture.

(** A price comparison for the worked examples: prices are kept as their
    decimal text, and the integer part decides [x < bound] for an integer
    bound. *)
Module PriceFixture.

Fixpoint integer_part (acc : Z) (s : string) : Z :=
  match s with
  | EmptyString => acc
  | String c s' =>
      let n := nat_of_ascii c in
      if ((48 <=? n) && (n <=? 57))%nat
      then integer_part (10 * acc + Z.of_nat (n - 48)) s'
      else acc
  end.

Definition price_lt (p : @number Fixture.platform) (bound : Z) : bool :=
  integer_part 0 p <? bound.

End PriceFixture.

(** * Worked examples *)

Example strip_example : PyStr.strip "  In stock  " = "In stock".
Proof. reflexivity. Qed.

Example keep_digits_example : PyStr.keep_digits_and_dots "GBP 51.77" = "51.77".
Proof. reflexivity. Qed.

Example rating_of_example :
  @rating_of ["star-rating"; "Three"] = "Three" ∧ @rating_of ["star-rating"] = "".
Proof. split; reflexivity. Qed.

Example urljoin_example :
  @urljoin Fixture.platform "https://books.toscrape.com/"
    "catalogue/page-1.html" = Ok Fixture.page1_url
  ∧ @urljoin Fixture.platform Fixture.page1_url "//["
    = Raise (ValueError "Invalid IPv6 URL").
Proof. split; reflexivity. Qed.

Example parse_page1_example :
  @parse_books_from_catalog_page Fixture.platform Fixture.page1_html
    Fixture.page1_url
  = Ok ([Fixture.row_a; Fixture.row_b],
        Some "https://books.toscrape.com/catalogue/page-2.html").
Proof. reflexivity. Qed.

(** A 503, a time-out, then a 200: three requests, two pauses. *)
Example fetch_example :
  let '(r, n', tr) :=
    @fetch_with_retries Fixture.platform Fixture.page1_url DEFAULT_CONFIG
      [Fixture.status 503; Fixture.timeout_error; Fixture.ok200 "body";
       Fixture.status 500] in
  r = Some {| status_code := 200; text := "body" |}
  ∧ n' = [Fixture.status 500]
  ∧ attempts_made tr = 3%nat ∧ sleeps_taken tr = 2%nat.
Proof. repeat split. Qed.

Example clean_example :
  @clean_and_validate Fixture.platform
    [set_page_num 1 Fixture.row_a; set_page_num 1 Fixture.row_b;
     set_page_num 2 Fixture.row_a]
  = Ok [Fixture.priced (set_page_num 1 Fixture.row_a) (Some "10.00");
        Fixture.priced (set_page_num 1 Fixture.row_b) None].
Proof. reflexivity. Qed.

(** * Properties of the retrying fetcher *)

Section FetcherProperties.
Context `{Platform}.
Variables (url : string) (config : ParserConfig).

Lemma replay_length k n os n' :
  replay url config k n = (os, n') → length os = k.
Proof.
  revert n os n'. induction k as [|k IH]; intros n os n'; simpl.
  - by intros [= <- _].
  - destruct (session_get _ _ _ _) as [o n1].
    destruct (replay url config k n1) as [os' n2] eqn:E.
    intros [= <- _]. simpl. f_equal. by eapply IH.
Qed.

(** One more iteration of the loop, by the outcome of its request. *)
Lemma fetch_attempts_200 k attempt n response n1 :
  session_get n url (headers config) (timeout_seconds config)
    = (Responded response, n1) →
  status_code response = 200 →
  fetch_attempts url config (S k) attempt n
    = (Some response, n1,
       [EvGet url (headers config) (timeout_seconds config)]).
Proof. intros Hget Hst. simpl. rewrite Hget, Hst. reflexivity. Qed.

Lemma fetch_attempts_fatal k attempt n response n1 :
  session_get n url (headers config) (timeout_seconds config)
    = (Responded response, n1) →
  fatal_status config response →
  fetch_attempts url config (S k) attempt n
    = (None, n1,
       [EvGet url (headers config) (timeout_seconds config);
        EvPrint (LogFail url (status_code response))]).
Proof.
  intros Hget [H200 Hretry]. simpl. rewrite Hget.
  destruct (Z.eqb_spec (status_code response) 200) as [|_]; [done|].
  by rewrite bool_decide_eq_false_2.
Qed.

Lemma fetch_attempts_retried k attempt n o n1 :
  session_get n url (headers config) (timeout_seconds config) = (o, n1) →
  retried config o = true →
  ∃ line,
    fetch_attempts url config (S k) attempt n
    = let '(r, n2, tr) := fetch_attempts url config k (attempt + 1) n1 in
      (r, n2,
       EvGet url (headers config) (timeout_seconds config)
         :: EvPrint line :: EvSleep (delay_seconds config) :: tr).
Proof.
  intros Hget Hre. simpl. rewrite Hget.
  unfold retried in Hre. apply andb_true_iff in Hre as [Hin Hne].
  destruct o as [response|kind msg]; simpl in *.
  - apply negb_true_iff in Hne. rewrite Hne, Hin.
    eexists. by destruct (fetch_attempts _ _ _ _ _) as [[??]?].
  - eexists. by destruct (fetch_attempts _ _ _ _ _) as [[??]?].
Qed.

(** Retryable outcomes all the way: the budget is used up. *)
Lemma fetch_attempts_exhausted k attempt n os n' :
  replay url config k n = (os, n') →
  forallb (retried config) os = true →
  ∃ tr, fetch_attempts url config k attempt n = (None, n', tr)
        ∧ attempts_made tr = k ∧ sleeps_taken tr = k.
Proof.
  revert attempt n os n'.
  induction k as [|k IH]; intros attempt n os n'; simpl replay.
  - intros [= <- <-] _. by exists [].
  - destruct (session_get _ _ _ _) as [o n1] eqn:Hget.
    destruct (replay url config k n1) as [os' n2] eqn:Hrep.
    intros [= <- <-]. simpl forallb. intros [Ho Hos]%andb_true_iff.
    destruct (fetch_attempts_retried k attempt n o n1 Hget Ho) as [line ->].
    destruct (IH (attempt + 1) n1 os' n2 Hrep Hos) as (tr & -> & Hn & Hs).
    eexists. split; [reflexivity|].
    unfold attempts_made, sleeps_taken in *. simpl. by rewrite Hn, Hs.
Qed.

(** Retryable outcomes, then a status 200 within the budget. *)
Lemma fetch_attempts_eventually_200 fails attempt n response n' :
  replay url config (S (length fails)) n
    = (fails ++ [Responded response], n') →
  forallb (retryable config) fails = true →
  status_code response = 200 →
  ∃ response' n'' tr,
    fetch_attempts url config (S (length fails)) attempt n
      = (Some response', n'', tr)
    ∧ status_code response' = 200
    ∧ (attempts_made tr ≤ S (length fails))%nat.
Proof.
  revert attempt n.
  induction fails as [|o fails IH]; intros attempt n; simpl replay.
  - destruct (session_get _ _ _ _) as [o n1] eqn:Hget.
    intros [= -> <-] _ Hst.
    rewrite (fetch_attempts_200 _ _ _ _ _ Hget Hst).
    eexists _, _, _. split; [reflexivity|]. split; [done|].
      unfold attempts_made. simpl. lia.
  - destruct (session_get _ _ _ _) as [o1 n1] eqn:Hget.
    destruct (let '(o0, n2) := session_get n1 url _ _ in _)
      as [os' n2] eqn:Hrep.
    intros [= -> -> <-]. simpl forallb.
    intros [Ho Hfails]%andb_true_iff Hst.
    destruct (is_200 o) eqn:H200.
    + destruct o as [r|]; [|done]. simpl in H200.
      apply Z.eqb_eq in H200.
      rewrite (fetch_attempts_200 _ _ _ _ _ Hget H200).
      eexists _, _, _. split; [reflexivity|]. split; [done|].
      unfold attempts_made. simpl. lia.
    + assert (retried config o = true) as Hre
        by (unfold retried; by rewrite Ho, H200).
      simpl length.
      destruct (fetch_attempts_retried (S (length fails)) attempt n o n1
                  Hget Hre) as [line ->].
      destruct (IH (attempt + 1) n1 Hrep Hfails Hst)
        as (response' & n'' & tr & -> & Hst' & Hle).
      eexists _, _, _. split; [reflexivity|]. split; [done|].
      unfold attempts_made in *. simpl. lia.
Qed.

(** Retryable outcomes, then a fatal status within the budget. *)
Lemma fetch_attempts_then_fatal fails extra attempt n response n' :
  replay url config (S (length fails)) n
    = (fails ++ [Responded response], n') →
  forallb (retried config) fails = true →
  fatal_status config response →
  ∃ tr,
    fetch_attempts url config (S (length fails) + extra) attempt n
      = (None, n',
         tr ++ [EvGet url (headers config) (timeout_seconds config);
                EvPrint (LogFail url (status_code response))])
    ∧ attempts_made tr = length fails ∧ sleeps_taken tr = length fails.
Proof.
  revert attempt n.
  induction fails as [|o fails IH]; intros attempt n; simpl replay.
  - destruct (session_get _ _ _ _) as [o n1] eqn:Hget.
    intros [= -> <-] _ Hfatal.
    change (S (length []) + extra)%nat with (S extra).
    rewrite (fetch_attempts_fatal _ _ _ _ _ Hget Hfatal). by exists [].
  - destruct (session_get _ _ _ _) as [o1 n1] eqn:Hget.
    destruct (let '(o0, n2) := session_get n1 url _ _ in _)
      as [os' n2] eqn:Hrep.
    intros [= -> -> <-]. simpl forallb.
    intros [Ho Hfails]%andb_true_iff Hfatal.
    change (S (length (o :: fails)) + extra)%nat
      with (S (S (length fails) + extra)).
    destruct (fetch_attempts_retried (S (length fails) + extra) attempt n o n1
                Hget Ho) as [line ->].
    destruct (IH (attempt + 1) n1 Hrep Hfails Hfatal) as (tr & -> & Hn & Hs).
    eexists (_ :: _ :: _ :: tr). split; [reflexivity|].
    unfold attempts_made, sleeps_taken in *. simpl. by rewrite Hn, Hs.
Qed.

End FetcherProperties.

Section FetcherClaims.
Context `{Platform}.

(** C1.  Let [R >= 1] be the configured retry count.
    (a) If the first [R-1] attempts each end in a retryable outcome (a
    status in the retryable set, or a network error) and the [R]-th returns
    status 200, [fetch_with_retries] returns a status-200 response and has
    issued at most [R] requests.
    (b) If all [R] attempts end in retryable failures (a network error, or
    a status of the retryable set that is not the 200 of a success), it
    returns [None], having issued exactly [R] requests. *)
Theorem fetch_with_retries_retry_budget (config : ParserConfig) (url : string)
    (n : net) (R : Z) :
  1 ≤ R →
  max_retries config = R →
  (∀ fails response n',
     replay url config (Z.to_nat R) n = (fails ++ [Responded response], n') →
     forallb (retryable config) fails = true →
     status_code response = 200 →
     ∃ response' n'' tr,
       fetch_with_retries url config n = (Some response', n'', tr)
       ∧ status_code response' = 200
       ∧ Z.of_nat (attempts_made tr) ≤ R)
  ∧ (∀ os n',
       replay url config (Z.to_nat R) n = (os, n') →
       forallb (retried config) os = true →
       ∃ tr,
         fetch_with_retries url config n = (None, n', tr)
         ∧ Z.of_nat (attempts_made tr) = R).
Proof.
  intros HR Hmax. unfold fetch_with_retries. rewrite Hmax. split.
  - intros fails response n' Hrep Hfails Hst.
    assert (Z.to_nat R = S (length fails)) as HRk.
    { apply replay_length in Hrep. rewrite length_app in Hrep. simpl in Hrep. lia. }
    rewrite HRk in *.
    destruct (fetch_attempts_eventually_200 url config fails 1 n response n'
                Hrep Hfails Hst) as (response' & n'' & tr & Hf & Hst' & Hle).
    exists response', n'', tr. repeat split; [done..|lia].
  - intros os n' Hrep Hos.
    destruct (fetch_attempts_exhausted url config (Z.to_nat R) 1 n os n'
                Hrep Hos) as (tr & Hf & Hn & _).
    exists tr. split; [done|lia].
Qed.

(** C2.  If, after any number of retried attempts still within the budget,
    an attempt returns a response whose status is neither 200 nor in the
    retryable set, [fetch_with_retries] returns [None] right there: the
    trace ends with that request and its [fail] line, no delay and no
    request follows, and the server is left as that request left it.  With
    no earlier attempt this is exactly one request. *)
Theorem fetch_with_retries_fatal_status (config : ParserConfig) (url : string)
    (n : net) (fails : list outcome) (response : Response) (n' : net) :
  replay url config (S (length fails)) n
    = (fails ++ [Responded response], n') →
  forallb (retried config) fails = true →
  Z.of_nat (length fails) < max_retries config →
  fatal_status config response →
  ∃ tr,
    fetch_with_retries url config n
      = (None, n',
         tr ++ [EvGet url (headers config) (timeout_seconds config);
                EvPrint (LogFail url (status_code response))])
    ∧ attempts_made tr = length fails
    ∧ sleeps_taken tr = length fails.
Proof.
  intros Hrep Hfails Hlt Hfatal. unfold fetch_with_retries.
  replace (Z.to_nat (max_retries config))
    with (S (length fails) + (Z.to_nat (max_retries config) - S (length fails)))%nat
    by lia.
  by apply fetch_attempts_then_fatal.
Qed.

(** C10.  With [max_retries <= 0] the loop body never runs: no request is
    issued, no delay is taken, the server is untouched and the result is
    [None]. *)
Theorem fetch_with_retries_no_budget (config : ParserConfig) (url : string)
    (n : net) :
  max_retries config ≤ 0 →
  fetch_with_retries url config n = (None, n, []).
Proof.
  intros Hle. unfold fetch_with_retries.
  by replace (Z.to_nat (max_retries config)) with 0%nat by lia.
Qed.

End FetcherClaims.

(** C1, witness: three attempts allowed; a 500, a time-out, then a 200; and
    a 500, a time-out, then a 503. *)
Lemma fetch_with_retries_retry_budget_witness :
  let config := Fixture.config_with 3 [500; 503] in
  (∃ response' n'' tr,
     @fetch_with_retries Fixture.platform Fixture.page1_url config
       [Fixture.status 500; Fixture.timeout_error; Fixture.ok200 "body"]
       = (Some response', n'', tr)
     ∧ status_code response' = 200
     ∧ Z.of_nat (attempts_made tr) ≤ 3)
  ∧ (∃ tr,
       @fetch_with_retries Fixture.platform Fixture.page1_url config
         [Fixture.status 500; Fixture.timeout_error; Fixture.status 503]
         = (None, [], tr)
       ∧ Z.of_nat (attempts_made tr) = 3).
Proof.
  intros config. split.
  - apply (proj1 (@fetch_with_retries_retry_budget Fixture.platform config
                    Fixture.page1_url _ 3 ltac:(lia) eq_refl)
             [Fixture.status 500; Fixture.timeout_error]
             {| status_code := 200; text := "body" |} []);
      reflexivity.
  - apply (proj2 (@fetch_with_retries_retry_budget Fixture.platform config
                    Fixture.page1_url _ 3 ltac:(lia) eq_refl)
             [Fixture.status 500; Fixture.timeout_error; Fixture.status 503]
             []);
      reflexivity.
Defined.

(** C2, witness: a 404 on the first attempt, and a 404 after one 503. *)
Lemma fetch_with_retries_fatal_status_witness :
  let config := Fixture.config_with 5 [500; 503] in
  (∃ tr,
     @fetch_with_retries Fixture.platform Fixture.page1_url config
       [Fixture.status 404; Fixture.ok200 "body"]
     = (None, [Fixture.ok200 "body"],
        tr ++ [EvGet Fixture.page1_url (headers config) (timeout_seconds config);
               EvPrint (LogFail Fixture.page1_url 404)])
     ∧ attempts_made tr = 0%nat ∧ sleeps_taken tr = 0%nat)
  ∧ (∃ tr,
       @fetch_with_retries Fixture.platform Fixture.page1_url config
         [Fixture.status 503; Fixture.status 404; Fixture.ok200 "body"]
       = (None, [Fixture.ok200 "body"],
          tr ++ [EvGet Fixture.page1_url (headers config) (timeout_seconds config);
                 EvPrint (LogFail Fixture.page1_url 404)])
       ∧ attempts_made tr = 1%nat ∧ sleeps_taken tr = 1%nat).
Proof.
  intros config. split.
  - apply (@fetch_with_retries_fatal_status Fixture.platform config
             Fixture.page1_url _ [] {| status_code := 404; text := "" |}).
    + reflexivity.
    + reflexivity.
    + vm_compute. reflexivity.
    + split; [discriminate|]. cbn. by apply (bool_decide_unpack _).
  - apply (@fetch_with_retries_fatal_status Fixture.platform config
             Fixture.page1_url _ [Fixture.status 503]
             {| status_code := 404; text := "" |}).
    + reflexivity.
    + reflexivity.
    + vm_compute. reflexivity.
    + split; [discriminate|]. cbn. by apply (bool_decide_unpack _).
Defined.

(** C10, witness: a retry count of zero against a server that would answer. *)
Lemma fetch_with_retries_no_budget_witness :
  @fetch_with_retries Fixture.platform Fixture.page1_url
    (Fixture.config_with 0 [500]) [Fixture.ok200 "body"]
  = (None, [Fixture.ok200 "body"], []).
Proof.
  apply (@fetch_with_retries_no_budget Fixture.platform). simpl. lia.
Defined.

(** * Properties of the page extractor *)

Section ExtractorProperties.
Context `{Platform}.

Lemma urljoin_empty_ref base : urljoin base "" = Ok base.
Proof. unfold urljoin. by destruct base. Qed.

Lemma for_each_Forall2 {A B} (f : A → result B) xs :
  Forall (λ x, ∃ y, f x = Ok y) xs →
  ∃ ys, for_each f xs = Ok ys ∧ Forall2 (λ x y, f x = Ok y) xs ys.
Proof.
  induction 1 as [|x xs [y Hy] _ (ys & Hys & Hall)]; simpl.
  - by exists [].
  - rewrite Hy, Hys. simpl. exists (y :: ys). split; [done|].
    by constructor.
Qed.

(** The row of a card that has a heading link: whatever [urljoin] makes of
    its trimmed [href], then the other columns. *)
Lemma parse_card_heading page_url card a :
  heading_link card = Some a →
  parse_card page_url card
  = (u ←! urljoin page_url (PyStr.strip (Soup.get a "href" ""));
     Ok {| title := PyStr.strip (Soup.get a "title" "");
           price_raw :=
             match Soup.select_one "p" ["price_color"] card with
             | Some t => Soup.get_text "" true t
             | None => ""
             end;
           availability :=
             match Soup.select_one "p" ["instock"; "availability"] card with
             | Some t => Soup.get_text " " true t
             | None => ""
             end;
           rating :=
             match Soup.select_one "p" ["star-rating"] card with
             | Some t => rating_of (Soup.get_classes t)
             | None => ""
             end;
           product_url := u;
           page_num := None |}).
Proof.
  unfold heading_link, parse_card.
  destruct (Soup.find "h3" card) as [h3|]; simpl; [|done].
  by intros ->.
Qed.

Lemma link_attr_get card a key :
  heading_link card = Some a →
  Soup.get a key "" = default "" (link_attr key card).
Proof.
  intros Ha. unfold link_attr, Soup.get. rewrite Ha. simpl.
  by destruct (Soup.assoc key (Soup.attrs_of a)).
Qed.

(** The reference the extractor resolves for a card: its trimmed [href],
    the empty reference when there is none. *)
Lemma card_reference_resolves page_url card a :
  heading_link card = Some a →
  card_resolves page_url card →
  resolves page_url (PyStr.strip (Soup.get a "href" "")).
Proof.
  intros Ha Hres. rewrite (link_attr_get _ _ _ Ha).
  destruct (link_attr "href" card) as [h|] eqn:Hh; simpl.
  - by apply Hres.
  - exists page_url. apply urljoin_empty_ref.
Qed.

(** The extractor does not raise when every card has a heading link whose
    [href] resolves and the pagination anchor, if any, has an [href] that
    resolves; the rows are those of the cards, in document order. *)
Lemma parse_books_from_soup_ok soup page_url :
  Forall (λ card, is_Some (heading_link card)) (item_cards soup) →
  Forall (card_resolves page_url) (item_cards soup) →
  next_link_ok soup →
  next_resolves page_url soup →
  ∃ rows next_url,
    parse_books_from_soup soup page_url = Ok (rows, next_url)
    ∧ Forall2 (λ card row, parse_card page_url card = Ok row)
        (item_cards soup) rows.
Proof.
  intros Hcards Hres Hnext Hnres. unfold parse_books_from_soup.
  destruct (for_each_Forall2 (parse_card page_url) (item_cards soup))
    as (rows & Hrows & Hall).
  { apply Forall_forall. intros card Hin.
    rewrite Forall_forall in Hcards, Hres.
    destruct (Hcards card Hin) as [a Ha].
    destruct (card_reference_resolves page_url card a Ha (Hres card Hin))
      as [u Hu].
    rewrite (parse_card_heading _ _ _ Ha), Hu. by eexists. }
  fold (item_cards soup). rewrite Hrows. simpl.
  destruct (Soup.select_one_child "li" ["next"] "a" soup) as [a|] eqn:Ha.
  - destruct (Hnext a Ha) as [href Hhref].
    destruct (Hnres a href Ha Hhref) as [u Hu].
    unfold Soup.getitem. rewrite Hhref. simpl. rewrite Hu. simpl.
    by eexists _, _.
  - by eexists _, _.
Qed.

End ExtractorProperties.

Lemma Forall2_with_Forall {A B} (R Q : A → B → Prop) (P : A → Prop) xs ys :
  Forall2 R xs ys →
  Forall P xs →
  (∀ x y, R x y → P x → Q x y) →
  Forall2 Q xs ys.
Proof.
  intros HR HP HQ. induction HR as [|x y xs ys Hxy _ IH].
  - constructor.
  - inversion HP; subst. constructor; auto.
Qed.

Section ExtractorClaims.
Context `{Platform}.

(** C3, as amended.  Take a document with N item cards, each with a heading
    link ([card.h3.a]) carrying an [href] that [urljoin] resolves against
    the page URL and a [title] that has at least one non-blank character,
    and whose pagination anchor, if there is one, has an [href] that
    [urljoin] resolves.  Then the extractor returns exactly N rows, in
    document order; each row has a non-empty title and a product URL equal
    to [urljoin] of the page URL and the card's [href] trimmed of
    surrounding white space; and the rating of a card without a star-rating
    marker is the empty string. *)
Theorem parse_books_well_formed_cards (html page_url : string) :
  Forall well_formed_card (item_cards (html_parser html)) →
  Forall titled_card (item_cards (html_parser html)) →
  Forall (card_resolves page_url) (item_cards (html_parser html)) →
  next_link_ok (html_parser html) →
  next_resolves page_url (html_parser html) →
  ∃ rows next_url,
    parse_books_from_catalog_page html page_url = Ok (rows, next_url)
    ∧ length rows = length (item_cards (html_parser html))
    ∧ Forall2 (well_formed_row page_url) (item_cards (html_parser html)) rows.
Proof.
  intros Hwf Htitled Hres Hnext Hnres. unfold parse_books_from_catalog_page.
  destruct (parse_books_from_soup_ok (html_parser html) page_url)
    as (rows & next_url & Hparse & Hrows); [|done..|].
  { eapply Forall_impl; [exact Hwf|]. intros card [[t Ht] _].
    unfold link_attr in Ht. by destruct (heading_link card). }
  exists rows, next_url. split; [done|]. split.
  { symmetry. by eapply Forall2_length. }
  eapply Forall2_with_Forall; [exact Hrows|exact Htitled|].
  intros card row Hrow (t & Ht & Hblank). cbv beta in Hrow.
  destruct (heading_link card) as [a|] eqn:Ha;
    [|by unfold link_attr in Ht; rewrite Ha in Ht].
  rewrite (parse_card_heading _ _ _ Ha) in Hrow.
  destruct (urljoin page_url _) as [u|e] eqn:Hu; [|done].
  injection Hrow as <-.
  unfold well_formed_row. simpl. split; [|split].
  - by rewrite (link_attr_get _ _ _ Ha), Ht.
  - intros h Hh. by rewrite (link_attr_get _ _ _ Ha), Hh in Hu.
  - by intros ->.
Qed.

(** C4, as amended.  Take a document in which every item card has a heading
    link ([card.h3.a]) whose [href], if it has one, [urljoin] resolves
    against the page URL, and whose pagination anchor, if there is one, has
    an [href] that [urljoin] resolves.  Then the extractor does not raise
    and returns one row per card, in document order.  In the row of a card,
    a missing price element, availability element or rating marker gives the
    empty string for that field and a missing [title] attribute gives an
    empty title; a missing [href] gives the product URL
    [urljoin(page_url, "")], which is the page URL. *)
Theorem parse_books_missing_fields (html page_url : string) :
  Forall (λ card, is_Some (heading_link card)) (item_cards (html_parser html)) →
  Forall (card_resolves page_url) (item_cards (html_parser html)) →
  next_link_ok (html_parser html) →
  next_resolves page_url (html_parser html) →
  ∃ rows next_url,
    parse_books_from_catalog_page html page_url = Ok (rows, next_url)
    ∧ Forall2 (degraded_row page_url) (item_cards (html_parser html)) rows.
Proof.
  intros Hcards Hres Hnext Hnres. unfold parse_books_from_catalog_page.
  destruct (parse_books_from_soup_ok (html_parser html) page_url Hcards Hres
              Hnext Hnres) as (rows & next_url & Hparse & Hrows).
  exists rows, next_url. split; [done|].
  eapply Forall2_with_Forall; [exact Hrows|exact Hcards|].
  intros card row Hrow [a Ha]. cbv beta in Hrow.
  rewrite (parse_card_heading _ _ _ Ha) in Hrow.
  destruct (urljoin page_url _) as [u|e] eqn:Hu; [|done].
  injection Hrow as <-.
  unfold degraded_row. simpl. repeat split.
  - by intros ->.
  - by intros ->.
  - by intros ->.
  - intros Hnone. by rewrite (link_attr_get _ _ _ Ha), Hnone.
  - intros Hnone. rewrite (link_attr_get _ _ _ Ha), Hnone in Hu.
    change (PyStr.strip (default "" None)) with "" in Hu.
    rewrite urljoin_empty_ref in Hu. by injection Hu.
Qed.

End ExtractorClaims.

(** C3, witness: the two cards of the first fixture page. *)
Lemma parse_books_well_formed_cards_witness :
  ∃ rows next_url,
    @parse_books_from_catalog_page Fixture.platform Fixture.page1_html
      Fixture.page1_url = Ok (rows, next_url)
    ∧ length rows
      = length (item_cards (@html_parser Fixture.platform Fixture.page1_html))
    ∧ Forall2 (@well_formed_row Fixture.platform Fixture.page1_url)
        (item_cards (@html_parser Fixture.platform Fixture.page1_html)) rows.
Proof.
  apply (@parse_books_well_formed_cards Fixture.platform).
  - vm_compute. repeat constructor; by eexists.
  - vm_compute. repeat constructor; eexists; (split; [reflexivity|discriminate]).
  - vm_compute. repeat constructor; intros h [= <-]; by eexists.
  - intros a. vm_compute. intros [= <-]. by eexists.
  - intros a h. vm_compute. intros [= <-] [= <-]. by eexists.
Defined.

(** C3, counterexample.  (a) A single card whose heading link carries both
    a [title] attribute and an [href], the title being empty: the card is
    well formed, and its row has an empty title.  (b) A well-formed card on
    a page whose pagination anchor has no [href]: the extractor raises and
    returns no row.  (c) A well-formed card whose [href] is [//[]: [urljoin]
    raises and so does the extractor. *)
Lemma parse_books_blank_title :
  (Forall well_formed_card
     (item_cards (@html_parser Fixture.platform Fixture.blank_title_html))
   ∧ @parse_books_from_catalog_page Fixture.platform Fixture.blank_title_html
       Fixture.page1_url
     = Ok ([{| title := ""; price_raw := ""; availability := "";
               rating := "";
               product_url := "https://books.toscrape.com/catalogue/a.html";
               page_num := None |}], None))
  ∧ (Forall well_formed_card
       (item_cards (@html_parser Fixture.platform Fixture.no_next_href_html))
     ∧ @parse_books_from_catalog_page Fixture.platform
         Fixture.no_next_href_html Fixture.page1_url
       = Raise (KeyError "href"))
  ∧ (Forall well_formed_card
       (item_cards (@html_parser Fixture.platform Fixture.bad_href_html))
     ∧ @parse_books_from_catalog_page Fixture.platform Fixture.bad_href_html
         Fixture.page1_url
       = Raise (ValueError "Invalid IPv6 URL")).
Proof.
  repeat split; vm_compute; repeat constructor; by eexists.
Qed.

(** C4, witness: the second card of the first fixture page has neither
    price, availability nor rating marker. *)
Lemma parse_books_missing_fields_witness :
  ∃ rows next_url,
    @parse_books_from_catalog_page Fixture.platform Fixture.page1_html
      Fixture.page1_url = Ok (rows, next_url)
    ∧ Forall2 (degraded_row Fixture.page1_url)
        (item_cards (@html_parser Fixture.platform Fixture.page1_html)) rows.
Proof.
  apply (@parse_books_missing_fields Fixture.platform).
  - vm_compute. repeat constructor; by eexists.
  - vm_compute. repeat constructor; intros h [= <-]; by eexists.
  - intros a. vm_compute. intros [= <-]. by eexists.
  - intros a h. vm_compute. intros [= <-] [= <-]. by eexists.
Defined.

(** C4, counterexample.  (a) A card whose link has no [href]: the row is
    returned, but its product URL is the page URL, not the empty string.
    (b) A page with a card lacking only optional elements next to a card
    without a heading: the extractor raises and returns no row at all.
    (c) A card lacking only optional elements whose [href] is [//[]:
    [urljoin] raises and so does the extractor. *)
Lemma parse_books_missing_href_and_heading :
  (link_attr "href"
     <$> item_cards (@html_parser Fixture.platform Fixture.no_href_html)
   = [None]
   ∧ @parse_books_from_catalog_page Fixture.platform Fixture.no_href_html
       Fixture.page1_url
     = Ok ([{| title := "A"; price_raw := ""; availability := "";
               rating := ""; product_url := Fixture.page1_url;
               page_num := None |}], None))
  ∧ (Soup.select_one "p" ["price_color"]
       <$> item_cards (@html_parser Fixture.platform Fixture.no_heading_html)
     = [None; None]
     ∧ @parse_books_from_catalog_page Fixture.platform Fixture.no_heading_html
         Fixture.page1_url
       = Raise (AttributeError "'NoneType' object has no attribute 'a'"))
  ∧ (Soup.select_one "p" ["price_color"]
       <$> item_cards (@html_parser Fixture.platform Fixture.bad_href_html)
     = [None]
     ∧ @parse_books_from_catalog_page Fixture.platform Fixture.bad_href_html
         Fixture.page1_url
       = Raise (ValueError "Invalid IPv6 URL")).
Proof. repeat split. Qed.

(** * Properties of the traversal driver *)

Section DriverProperties.
Context `{Platform}.
Variable config : ParserConfig.

Lemma tag_pages_cons first rows pages :
  tag_pages first (rows :: pages)
  = (set_page_num first <$> rows) ++ tag_pages (first + 1) pages.
Proof.
  unfold tag_pages. rewrite imap_cons. simpl.
  rewrite Z.add_0_r. f_equal. f_equal.
  apply imap_ext. intros i rs _. simpl. f_equal. f_equal. lia.
Qed.

(** One pass through the loop body, by what the page turns out to be. *)
Lemma scrape_loop_fetch_failed fuel url p acc n n' tr :
  url ≠ "" →
  fetch_with_retries url config n = (None, n', tr) →
  scrape_loop (S fuel) config (Some url) p acc n
  = Some (Ok acc, n',
          (EvPrint (LogPage (p + 1) url) :: tr) ++ [EvPrint (LogSkip url)]).
Proof.
  intros Hurl Hfetch. destruct url as [|c u]; [done|].
  simpl. by rewrite Hfetch.
Qed.

Lemma scrape_loop_empty_page fuel url p acc n response n' tr next_url :
  url ≠ "" →
  fetch_with_retries url config n = (Some response, n', tr) →
  parse_books_from_catalog_page (text response) url = Ok ([], next_url) →
  scrape_loop (S fuel) config (Some url) p acc n
  = Some (Ok acc, n',
          (EvPrint (LogPage (p + 1) url) :: tr) ++ [EvPrint LogStop]).
Proof.
  intros Hurl Hfetch Hparse. destruct url as [|c u]; [done|].
  simpl. rewrite Hfetch, Hparse. simpl. by rewrite app_nil_r.
Qed.

Lemma scrape_loop_page fuel url p acc n response n1 tr rows next_url :
  url ≠ "" →
  fetch_with_retries url config n = (Some response, n1, tr) →
  parse_books_from_catalog_page (text response) url = Ok (rows, next_url) →
  rows ≠ [] →
  scrape_loop (S fuel) config (Some url) p acc n
  = match scrape_loop fuel config next_url (p + 1)
            (acc ++ (set_page_num (p + 1) <$> rows)) n1 with
    | None => None
    | Some (r, n2, tr2) =>
        Some (r, n2,
              (EvPrint (LogPage (p + 1) url) :: tr)
                ++ sleep_human (delay_seconds config) ++ tr2)
    end.
Proof.
  intros Hurl Hfetch Hparse Hrows. destruct url as [|c u]; [done|].
  simpl. rewrite Hfetch, Hparse. by destruct rows.
Qed.

(** The loop along a traversal: with fuel for every page and for the last
    test, it returns the rows it held, followed by the pages' rows tagged
    from [p + 1] on, and has issued the requests of the traversal and no
    other. *)
Lemma scrape_loop_crawl n url pages e n' reqs :
  crawl config n url pages e n' reqs →
  ∀ extra p acc,
  ∃ tr,
    scrape_loop (S (length pages) + extra) config (Some url) p acc n
      = Some (Ok (acc ++ tag_pages (p + 1) pages), n', tr)
    ∧ attempts_made tr = reqs.
Proof.
  induction 1 as
    [n url n' tr Hurl Hfetch
    |n url response n' tr next_url Hurl Hfetch Hparse
    |n url response n' tr rows Hurl Hfetch Hparse Hrows
    |n url response n1 tr rows next_url pages e n2 reqs Hurl Hfetch Hparse
       Hrows _ IH];
    intros extra p acc.
  - change (S (length []) + extra)%nat with (S extra).
    rewrite (scrape_loop_fetch_failed _ _ _ _ _ _ _ Hurl Hfetch).
    eexists. split; [by rewrite app_nil_r|].
    unfold attempts_made. simpl.
      rewrite ?List.filter_app, ?length_app. simpl. lia.
  - change (S (length []) + extra)%nat with (S extra).
    rewrite (scrape_loop_empty_page _ _ _ _ _ _ _ _ _ Hurl Hfetch Hparse).
    eexists. split; [by rewrite app_nil_r|].
    unfold attempts_made. simpl.
      rewrite ?List.filter_app, ?length_app. simpl. lia.
  - change (S (length [rows]) + extra)%nat with (S (S extra)).
    rewrite (scrape_loop_page _ _ _ _ _ _ _ _ _ _ Hurl Hfetch Hparse Hrows).
    simpl. eexists. split.
    + rewrite tag_pages_cons. unfold tag_pages. simpl.
      by rewrite app_nil_r.
    + unfold attempts_made. simpl.
      rewrite ?List.filter_app, ?length_app. simpl. lia.
  - change (S (length (rows :: pages)) + extra)%nat
      with (S (S (length pages) + extra)).
    rewrite (scrape_loop_page _ _ _ _ _ _ _ _ _ _ Hurl Hfetch Hparse Hrows).
    destruct (IH extra (p + 1) (acc ++ (set_page_num (p + 1) <$> rows)))
      as (tr2 & -> & Hreqs).
    eexists. split.
    + rewrite tag_pages_cons, <- (assoc_L (++) acc). reflexivity.
    + unfold attempts_made in *. simpl.
      rewrite ?List.filter_app, ?length_app. simpl. lia.
Qed.

(** A whole run along a traversal from the first page. *)
Lemma scrape_all_books_crawl n url0 pages e n' reqs fuel :
  first_url config = Ok url0 →
  crawl config n url0 pages e n' reqs →
  (length pages < fuel)%nat →
  ∃ tr,
    scrape_all_books fuel config n = Some (Ok (tag_pages 1 pages), n', tr)
    ∧ attempts_made tr = reqs.
Proof.
  intros Hurl0 Hcrawl Hfuel. unfold scrape_all_books.
  fold (first_url config). rewrite Hurl0.
  destruct (scrape_loop_crawl _ _ _ _ _ _ Hcrawl
              (fuel - S (length pages))%nat 0 []) as (tr & Hloop & Hreqs).
  replace (S (length pages) + (fuel - S (length pages)))%nat with fuel
    in Hloop by lia.
  rewrite Hloop. by exists (EvSessionNew :: tr).
Qed.

(** The two ways a run returns: the first URL does not resolve, or the loop
    returns. *)
Lemma scrape_all_books_inv fuel n r n' tr :
  scrape_all_books fuel config n = Some (r, n', tr) →
  (∃ e, first_url config = Raise e
        ∧ r = Raise e ∧ n' = n ∧ tr = [EvSessionNew])
  ∨ (∃ url0 tr1,
       first_url config = Ok url0
       ∧ scrape_loop fuel config (Some url0) 0 [] n = Some (r, n', tr1)
       ∧ tr = EvSessionNew :: tr1).
Proof.
  unfold scrape_all_books. fold (first_url config).
  destruct (first_url config) as [url0|e].
  - destruct (scrape_loop fuel config _ 0 [] n) as [[[r1 n1] tr1]|] eqn:Hloop;
      [|done].
    intros [= <- <- <-]. right. by exists url0, tr1.
  - intros [= <- <- <-]. left. by exists e.
Qed.

(** What tagging leaves alone, and what it writes. *)
Lemma tag_pages_fields first pages :
  extracted_fields <$> tag_pages first pages
  = extracted_fields <$> concat pages.
Proof.
  revert first. induction pages as [|rows pages IH]; intros first; [done|].
  rewrite tag_pages_cons. simpl. rewrite !fmap_app, IH. f_equal.
  rewrite <- list_fmap_compose. by apply list_fmap_ext.
Qed.

Lemma tag_pages_numbers first pages :
  page_num <$> tag_pages first pages
  = concat (imap (λ i rows,
                    replicate (length rows) (Some (first + Z.of_nat i)))
              pages).
Proof.
  revert first. induction pages as [|rows pages IH]; intros first; [done|].
  rewrite tag_pages_cons, fmap_app, IH, imap_cons. simpl.
  rewrite Z.add_0_r. f_equal.
  - clear. induction rows as [|r rows IH]; [done|].
    rewrite !fmap_cons. simpl. by f_equal.
  - f_equal. apply imap_ext. intros i rs _. simpl. do 2 f_equal. lia.
Qed.




End DriverProperties.

Section DriverClaims.
Context `{Platform}.

(** C5.  Over a linear chain of pages starting at the first catalogue page
    (each page fetched successfully and parsed to at least one row, each but
    the last linking to the next, the last without a next link),
    [scrape_all_books] returns, given fuel for the chain, a frame that holds
    the pages' rows in page-then-card order, with the extracted columns as
    the extractor gave them, and in which the [page_num] of every row of
    page [i] (counted from 0) is [1 + i]: the first page is 1 and each
    followed link adds exactly 1.  It issues the requests of these fetches
    and no other. *)
Theorem scrape_all_books_linear_chain (config : ParserConfig) (n : net)
    (url0 : string) (pages : list (list book_row)) (n' : net)
    (reqs fuel : nat) :
  first_url config = Ok url0 →
  crawl config n url0 pages Complete n' reqs →
  (length pages < fuel)%nat →
  ∃ df tr,
    scrape_all_books fuel config n = Some (Ok df, n', tr)
    ∧ extracted_fields <$> df = extracted_fields <$> concat pages
    ∧ page_num <$> df
      = concat (imap (λ i rows,
                        replicate (length rows) (Some (1 + Z.of_nat i)))
                  pages)
    ∧ attempts_made tr = reqs.
Proof.
  intros Hurl0 Hcrawl Hfuel.
  destruct (scrape_all_books_crawl config n url0 pages Complete n' reqs fuel
              Hurl0 Hcrawl Hfuel) as (tr & Hrun & Hreqs).
  exists (tag_pages 1 pages), tr. split; [done|].
  split; [apply tag_pages_fields|]. split; [apply tag_pages_numbers|done].
Qed.


(** C8.  When no page is completed (the fetch of the first page fails, or
    the first page parses to zero rows) the crawl returns normally with an
    empty frame, and [clean_and_validate] rejects that frame with a
    [ValueError].  ([url0] is the first catalogue URL as [urljoin] gives
    it.) *)
Theorem empty_crawl_rejected_by_cleaning (config : ParserConfig) (n : net)
    (url0 : string) (e : ending) (n' : net) (reqs fuel : nat) :
  first_url config = Ok url0 →
  crawl config n url0 [] e n' reqs →
  (0 < fuel)%nat →
  ∃ tr,
    scrape_all_books fuel config n = Some (Ok [], n', tr)
    ∧ clean_and_validate []
      = Raise (ValueError "No data scraped: dataframe is empty").
Proof.
  intros Hurl0 Hcrawl Hfuel.
  destruct (scrape_all_books_crawl config n url0 [] e n' reqs fuel Hurl0
              Hcrawl Hfuel) as (tr & Hrun & _).
  by exists tr.
Qed.


End DriverClaims.

(** * Deduplication *)

Section Deduplication.
Context {A : Type} (key : A → string).

Lemma drop_duplicates_from_again seen df :
  drop_duplicates_from key seen (drop_duplicates_from key seen df)
  = drop_duplicates_from key seen df.
Proof.
  revert seen. induction df as [|r df IH]; intros seen; simpl; [done|].
  case_bool_decide as Hseen; [by apply IH|].
  simpl. rewrite bool_decide_eq_false_2 by done. f_equal.
  apply IH.
Qed.

Lemma drop_duplicates_from_NoDup seen df :
  NoDup (key <$> df) →
  (∀ r, r ∈ df → key r ∉ seen) →
  drop_duplicates_from key seen df = df.
Proof.
  revert seen. induction df as [|r df IH]; intros seen Hnd Hseen; simpl;
    [done|].
  rewrite fmap_cons in Hnd. apply NoDup_cons in Hnd as [Hr Hnd].
  rewrite bool_decide_eq_false_2 by (apply Hseen; left).
  f_equal. apply IH; [done|].
  intros r' Hr'. apply not_elem_of_union. split.
  - rewrite elem_of_singleton. intros Heq. apply Hr. rewrite <- Heq.
    by apply list_elem_of_fmap_2.
  - apply Hseen. by right.
Qed.

End Deduplication.

Section CleaningClaims.
Context `{Platform}.

(** C7.  Deduplication by product URL is idempotent: deduplicating the
    deduplicated frame changes nothing; and on a frame whose product URLs
    are pairwise distinct it is the identity. *)
Theorem dedup_by_product_url_idempotent (df : list clean_row) :
  dedup_by_product_url (dedup_by_product_url df) = dedup_by_product_url df
  ∧ (NoDup ((λ r, product_url (raw r)) <$> df) →
     dedup_by_product_url df = df).
Proof.
  unfold dedup_by_product_url, drop_duplicates. split.
  - apply drop_duplicates_from_again.
  - intros Hnd. apply drop_duplicates_from_NoDup; [done|].
    intros r _. apply not_elem_of_empty.
Qed.

End CleaningClaims.

(** C5, witness: two pages, the second fetched at the second attempt. *)
Lemma scrape_all_books_linear_chain_witness :
  ∃ df tr,
    @scrape_all_books Fixture.platform 3 DEFAULT_CONFIG
      [Fixture.ok200 Fixture.page1_html; Fixture.status 503;
       Fixture.ok200 Fixture.page2_html]
    = Some (Ok df, [], tr)
    ∧ extracted_fields <$> df
      = extracted_fields <$> [Fixture.row_a; Fixture.row_b; Fixture.row_c]
    ∧ page_num <$> df = [Some 1; Some 1; Some 2]
    ∧ attempts_made tr = 3%nat.
Proof.
  edestruct (λ reqs,
               @scrape_all_books_linear_chain Fixture.platform DEFAULT_CONFIG
                 [Fixture.ok200 Fixture.page1_html; Fixture.status 503;
                  Fixture.ok200 Fixture.page2_html]
                 Fixture.page1_url
                 [[Fixture.row_a; Fixture.row_b]; [Fixture.row_c]] [] reqs 3)
    as (df & tr & Hrun & Hfields & Hnums & Hreqs).
  - reflexivity.
  - eapply crawl_next_page;
      [discriminate | reflexivity | reflexivity | discriminate |].
    eapply crawl_last_page;
      [discriminate | reflexivity | reflexivity | discriminate].
  - simpl. lia.
  - exists df, tr. split; [exact Hrun|]. split; [exact Hfields|].
    split; [exact Hnums|]. rewrite Hreqs. reflexivity.
Defined.


(** C7, witness: a frame with a repeated product URL, and one without. *)
Lemma dedup_by_product_url_idempotent_witness :
  let df := [Fixture.priced Fixture.row_a (Some "10.00");
             Fixture.priced Fixture.row_b None;
             Fixture.priced Fixture.row_a None] in
  let df' := [Fixture.priced Fixture.row_a (Some "10.00");
              Fixture.priced Fixture.row_b None] in
  @dedup_by_product_url Fixture.platform df = df'
  ∧ @dedup_by_product_url Fixture.platform
      (@dedup_by_product_url Fixture.platform df)
    = @dedup_by_product_url Fixture.platform df
  ∧ @dedup_by_product_url Fixture.platform df' = df'.
Proof.
  intros df df'. split; [reflexivity|]. split.
  - apply (proj1 (@dedup_by_product_url_idempotent Fixture.platform df)).
  - apply (proj2 (@dedup_by_product_url_idempotent Fixture.platform df')).
    by apply (bool_decide_unpack _).
Defined.

(** C8, witness: the first page answers 404. *)
Lemma empty_crawl_rejected_by_cleaning_witness :
  ∃ tr,
    @scrape_all_books Fixture.platform 1 DEFAULT_CONFIG [Fixture.status 404]
    = Some (Ok [], [], tr)
    ∧ @clean_and_validate Fixture.platform []
      = Raise (ValueError "No data scraped: dataframe is empty").
Proof.
  eapply (λ reqs,
            @empty_crawl_rejected_by_cleaning Fixture.platform DEFAULT_CONFIG
              [Fixture.status 404] Fixture.page1_url FetchFailed [] reqs 1).
  - reflexivity.
  - eapply crawl_fetch_failed; [discriminate | reflexivity].
  - lia.
Defined.



(** * Further properties of the retrying fetcher *)

(** Case analysis of one iteration of the retry loop: status 200, a
    retryable status, a fatal status, a network error.  In the two
    retrying cases [IH] is specialised to the remaining iterations. *)
Ltac fetch_cases IH :=
  simpl;
  destruct (session_get _ _ _ _) as [[response|kind msg] n1];
  [ destruct (Z.eqb_spec (status_code response) 200) as [H200|H200];
    [ intros [= <- <- <-]
    | destruct (bool_decide _) eqn:Hretry;
      [ destruct (fetch_attempts _ _ _ _ _) as [[r1 n2] tr1] eqn:Hrec;
        intros [= <- <- <-]; specialize (IH _ _ _ _ _ Hrec)
      | intros [= <- <- <-] ] ]
  | destruct (fetch_attempts _ _ _ _ _) as [[r1 n2] tr1] eqn:Hrec;
    intros [= <- <- <-]; specialize (IH _ _ _ _ _ Hrec) ].

Section FetcherInvariants.
Context `{Platform}.
Variables (url : string) (config : ParserConfig).

Lemma fetch_attempts_bounded k attempt n r n' tr :
  fetch_attempts url config k attempt n = (r, n', tr) →
  (attempts_made tr ≤ k)%nat ∧ (sleeps_taken tr ≤ attempts_made tr)%nat.
Proof.
  revert attempt n r n' tr.
  induction k as [|k IH]; intros attempt n r n' tr.
  - intros [= <- <- <-]. by compute.
  - fetch_cases IH; unfold attempts_made, sleeps_taken in *; simpl; lia.
Qed.

Lemma fetch_attempts_success k attempt n response n' tr :
  fetch_attempts url config k attempt n = (Some response, n', tr) →
  status_code response = 200
  ∧ last tr = Some (EvGet url (headers config) (timeout_seconds config))
  ∧ attempts_made tr = S (sleeps_taken tr).
Proof.
  revert attempt n n' tr.
  induction k as [|k IH]; intros attempt n n' tr; [done|].
  simpl. destruct (session_get _ _ _ _) as [[resp|kind msg] n1].
  - destruct (Z.eqb_spec (status_code resp) 200) as [H200|H200].
    + by intros [= <- <- <-].
    + destruct (bool_decide _); [|done].
      destruct (fetch_attempts _ _ _ _ _) as [[r1 n2] tr1] eqn:Hrec.
      intros [= -> <- <-].
      destruct (IH _ _ _ _ Hrec) as (Hst & Hlast & Hn).
      split; [done|]. split.
      * simpl. by destruct tr1.
      * unfold attempts_made, sleeps_taken in *. simpl. by rewrite Hn.
  - destruct (fetch_attempts _ _ _ _ _) as [[r1 n2] tr1] eqn:Hrec.
    intros [= -> <- <-].
    destruct (IH _ _ _ _ Hrec) as (Hst & Hlast & Hn).
    split; [done|]. split.
    + simpl. by destruct tr1.
    + unfold attempts_made, sleeps_taken in *. simpl. by rewrite Hn.
Qed.

Lemma fetch_attempts_failure k attempt n n' tr :
  fetch_attempts url config k attempt n = (None, n', tr) →
  (attempts_made tr = k ∧ sleeps_taken tr = k)
  ∨ (∃ st, st ≠ 200 ∧ (st ∉ retry_statuses config)
           ∧ last tr = Some (EvPrint (LogFail url st))
           ∧ attempts_made tr = S (sleeps_taken tr)).
Proof.
  revert attempt n n' tr.
  induction k as [|k IH]; intros attempt n n' tr.
  - intros [= <- <-]. by left.
  - simpl. destruct (session_get _ _ _ _) as [[resp|kind msg] n1].
    + destruct (Z.eqb_spec (status_code resp) 200) as [H200|H200]; [done|].
      case_bool_decide as Hretry.
      * destruct (fetch_attempts _ _ _ _ _) as [[r1 n2] tr1] eqn:Hrec.
        intros [= -> <- <-].
        destruct (IH _ _ _ _ Hrec) as [[Hn Hs]|(st & ? & ? & Hlast & Hn)].
        -- left. unfold attempts_made, sleeps_taken in *. simpl.
           by rewrite Hn, Hs.
        -- right. exists st. repeat split; [done..| |].
           ++ simpl. by destruct tr1.
           ++ unfold attempts_made, sleeps_taken in *. simpl. by rewrite Hn.
      * intros [= <- <-]. right. by exists (status_code resp).
    + destruct (fetch_attempts _ _ _ _ _) as [[r1 n2] tr1] eqn:Hrec.
      intros [= -> <- <-].
      destruct (IH _ _ _ _ Hrec) as [[Hn Hs]|(st & ? & ? & Hlast & Hn)].
      * left. unfold attempts_made, sleeps_taken in *. simpl.
        by rewrite Hn, Hs.
      * right. exists st. repeat split; [done..| |].
        -- simpl. by destruct tr1.
        -- unfold attempts_made, sleeps_taken in *. simpl. by rewrite Hn.
Qed.

Lemma fetch_attempts_events k attempt n r n' tr :
  fetch_attempts url config k attempt n = (r, n', tr) →
  Forall (λ ev,
            match ev with
            | EvGet u h t =>
                u = url ∧ h = headers config ∧ t = timeout_seconds config
            | EvSleep bounds => bounds = delay_seconds config
            | EvPrint _ => True
            | EvSessionNew | EvSessionClose => False
            end) tr.
Proof.
  revert attempt n r n' tr.
  induction k as [|k IH]; intros attempt n r n' tr.
  - intros [= <- <- <-]. constructor.
  - fetch_cases IH; repeat constructor; done.
Qed.

Lemma fetch_attempts_paced k attempt n r n' tr :
  fetch_attempts url config k attempt n = (r, n', tr) →
  paced true tr = true
  ∧ (attempts_made tr = 0%nat → tr = [])
  ∧ (is_Some r → rested_after true tr = false).
Proof.
  revert attempt n r n' tr.
  induction k as [|k IH]; intros attempt n r n' tr.
  - intros [= <- <- <-]. repeat split. by intros [? [=]].
  - fetch_cases IH; simpl; try destruct IH as (Hp & _ & Hr);
      repeat split; try done; (by intros [? [=]]).
Qed.

End FetcherInvariants.

Section FetcherExtras.
Context `{Platform}.

(** X1.  Whatever the server does, [fetch_with_retries] issues at most
    [max_retries] requests (none when that is negative) and pauses at most
    once per request. *)
Theorem fetch_with_retries_request_bound (config : ParserConfig)
    (url : string) (n : net) (r : option Response) (n' : net)
    (tr : list event) :
  fetch_with_retries url config n = (r, n', tr) →
  Z.of_nat (attempts_made tr) ≤ Z.max 0 (max_retries config)
  ∧ (sleeps_taken tr ≤ attempts_made tr)%nat.
Proof.
  intros Hfetch. apply fetch_attempts_bounded in Hfetch as [Hn Hs].
  split; [lia|done].
Qed.

(** X2.  A response [fetch_with_retries] returns has status 200; the request
    that got it is the last event of the call, and every request before it
    was followed by one pause. *)
Theorem fetch_with_retries_success (config : ParserConfig) (url : string)
    (n : net) (response : Response) (n' : net) (tr : list event) :
  fetch_with_retries url config n = (Some response, n', tr) →
  status_code response = 200
  ∧ last tr = Some (EvGet url (headers config) (timeout_seconds config))
  ∧ attempts_made tr = S (sleeps_taken tr).
Proof. apply fetch_attempts_success. Qed.

(** X3.  When [fetch_with_retries] returns [None], either the whole budget
    was spent, each request followed by a pause, or the call ended on the
    [fail] line of a status that is neither 200 nor retryable, with no
    pause after the request that got it. *)
Theorem fetch_with_retries_failure (config : ParserConfig) (url : string)
    (n n' : net) (tr : list event) :
  fetch_with_retries url config n = (None, n', tr) →
  (attempts_made tr = Z.to_nat (max_retries config)
   ∧ sleeps_taken tr = Z.to_nat (max_retries config))
  ∨ (∃ st, st ≠ 200 ∧ (st ∉ retry_statuses config)
           ∧ last tr = Some (EvPrint (LogFail url st))
           ∧ attempts_made tr = S (sleeps_taken tr)).
Proof. apply fetch_attempts_failure. Qed.

(** X4.  Every request of a call goes to the URL it was given, with the
    configured headers and time-out; every pause is drawn from the
    configured bounds; the call neither creates nor closes a session. *)
Theorem fetch_with_retries_as_configured (config : ParserConfig)
    (url : string) (n : net) (r : option Response) (n' : net)
    (tr : list event) :
  fetch_with_retries url config n = (r, n', tr) →
  ∀ ev, ev ∈ tr →
    match ev with
    | EvGet u h t => u = url ∧ h = headers config ∧ t = timeout_seconds config
    | EvSleep bounds => bounds = delay_seconds config
    | EvPrint _ => True
    | EvSessionNew | EvSessionClose => False
    end.
Proof.
  intros Hfetch. apply fetch_attempts_events in Hfetch.
  by rewrite Forall_forall in Hfetch.
Qed.

(** Success does not depend on how much budget is left over, nor on the
    retry count the log lines quote. *)
Lemma fetch_attempts_success_more_budget url config k attempt n response n' tr :
  fetch_attempts url config k attempt n = (Some response, n', tr) →
  ∀ R extra attempt',
  ∃ tr',
    fetch_attempts url (with_max_retries R config) (k + extra) attempt' n
      = (Some response, n', tr')
    ∧ attempts_made tr' = attempts_made tr.
Proof.
  revert attempt n n' tr.
  induction k as [|k IH]; intros attempt n n' tr; [done|].
  simpl. destruct (session_get _ _ _ _) as [[resp|kind msg] n1].
  - destruct (Z.eqb_spec (status_code resp) 200) as [H200|H200].
    + intros [= <- <- <-] R extra attempt'. by eexists.
    + destruct (bool_decide _); [|done].
      destruct (fetch_attempts url config k _ _) as [[r1 n2] tr1] eqn:Hrec.
      intros [= -> <- <-] R extra attempt'.
      destruct (IH _ _ _ _ Hrec R extra (attempt' + 1)) as (tr' & -> & Hn).
      eexists. split; [reflexivity|].
      unfold attempts_made in *. simpl. by rewrite Hn.
  - destruct (fetch_attempts url config k _ _) as [[r1 n2] tr1] eqn:Hrec.
    intros [= -> <- <-] R extra attempt'.
    destruct (IH _ _ _ _ Hrec R extra (attempt' + 1)) as (tr' & -> & Hn).
    eexists. split; [reflexivity|].
    unfold attempts_made in *. simpl. by rewrite Hn.
Qed.

(** X5.  Raising the retry count never loses a success: a call that returns
    a response returns the same response, after the same number of requests
    and leaving the server in the same state, under any larger retry
    count. *)
Theorem fetch_with_retries_more_retries (config : ParserConfig)
    (url : string) (n : net) (response : Response) (n' : net)
    (tr : list event) (R : Z) :
  fetch_with_retries url config n = (Some response, n', tr) →
  max_retries config ≤ R →
  ∃ tr',
    fetch_with_retries url (with_max_retries R config) n
      = (Some response, n', tr')
    ∧ attempts_made tr' = attempts_made tr.
Proof.
  intros Hfetch HR. unfold fetch_with_retries in *. simpl.
  replace (Z.to_nat R)
    with (Z.to_nat (max_retries config)
          + (Z.to_nat R - Z.to_nat (max_retries config)))%nat by lia.
  by eapply fetch_attempts_success_more_budget.
Qed.

End FetcherExtras.

(** X1, witness: five attempts allowed, success at the third. *)
Lemma fetch_with_retries_request_bound_witness :
  ∃ tr,
    (@fetch_with_retries Fixture.platform Fixture.page1_url DEFAULT_CONFIG
       [Fixture.status 503; Fixture.timeout_error; Fixture.ok200 "body"]).2
    = tr
    ∧ Z.of_nat (attempts_made tr) ≤ Z.max 0 5
    ∧ (sleeps_taken tr ≤ attempts_made tr)%nat.
Proof.
  eexists. split; [reflexivity|].
  eapply (@fetch_with_retries_request_bound Fixture.platform DEFAULT_CONFIG
            Fixture.page1_url
            [Fixture.status 503; Fixture.timeout_error; Fixture.ok200 "body"]).
  reflexivity.
Defined.

(** X2, witness: a 503, a time-out, then a 200. *)
Lemma fetch_with_retries_success_witness :
  status_code {| status_code := 200; text := "body" |} = 200
  ∧ last
      (@fetch_with_retries Fixture.platform Fixture.page1_url DEFAULT_CONFIG
         [Fixture.status 503; Fixture.timeout_error; Fixture.ok200 "body"]).2
    = Some (EvGet Fixture.page1_url (headers DEFAULT_CONFIG)
              (timeout_seconds DEFAULT_CONFIG))
  ∧ attempts_made
      (@fetch_with_retries Fixture.platform Fixture.page1_url DEFAULT_CONFIG
         [Fixture.status 503; Fixture.timeout_error; Fixture.ok200 "body"]).2
    = S (sleeps_taken
           (@fetch_with_retries Fixture.platform Fixture.page1_url
              DEFAULT_CONFIG
              [Fixture.status 503; Fixture.timeout_error;
               Fixture.ok200 "body"]).2).
Proof.
  eapply (@fetch_with_retries_success Fixture.platform DEFAULT_CONFIG
            Fixture.page1_url
            [Fixture.status 503; Fixture.timeout_error; Fixture.ok200 "body"]
            {| status_code := 200; text := "body" |} []).
  reflexivity.
Defined.

(** X3, witness: a 404 at the second attempt. *)
Lemma fetch_with_retries_failure_witness :
  let tr :=
    (@fetch_with_retries Fixture.platform Fixture.page1_url DEFAULT_CONFIG
       [Fixture.status 503; Fixture.status 404]).2 in
  (attempts_made tr = 5%nat ∧ sleeps_taken tr = 5%nat)
  ∨ (∃ st, st ≠ 200 ∧ (st ∉ retry_statuses DEFAULT_CONFIG)
           ∧ last tr = Some (EvPrint (LogFail Fixture.page1_url st))
           ∧ attempts_made tr = S (sleeps_taken tr)).
Proof.
  eapply (@fetch_with_retries_failure Fixture.platform DEFAULT_CONFIG
            Fixture.page1_url [Fixture.status 503; Fixture.status 404] []).
  reflexivity.
Defined.

(** X4, witness: the requests of a call with one retry. *)
Lemma fetch_with_retries_as_configured_witness :
  Forall (λ ev,
            match ev with
            | EvGet u h t =>
                u = Fixture.page1_url ∧ h = headers DEFAULT_CONFIG
                ∧ t = timeout_seconds DEFAULT_CONFIG
            | EvSleep bounds => bounds = delay_seconds DEFAULT_CONFIG
            | EvPrint _ => True
            | EvSessionNew | EvSessionClose => False
            end)
    (@fetch_with_retries Fixture.platform Fixture.page1_url DEFAULT_CONFIG
       [Fixture.status 503; Fixture.ok200 "body"]).2.
Proof.
  apply Forall_forall.
  eapply (@fetch_with_retries_as_configured Fixture.platform DEFAULT_CONFIG
            Fixture.page1_url [Fixture.status 503; Fixture.ok200 "body"]).
  reflexivity.
Defined.

(** X5, witness: success at the third of three attempts, then with seven
    allowed. *)
Lemma fetch_with_retries_more_retries_witness :
  ∃ tr',
    @fetch_with_retries Fixture.platform Fixture.page1_url
      (with_max_retries 7 (Fixture.config_with 3 [503]))
      [Fixture.status 503; Fixture.timeout_error; Fixture.ok200 "body"]
    = (Some {| status_code := 200; text := "body" |}, [], tr')
    ∧ attempts_made tr' = 3%nat.
Proof.
  edestruct (λ tr,
               @fetch_with_retries_more_retries Fixture.platform
                 (Fixture.config_with 3 [503]) Fixture.page1_url
                 [Fixture.status 503; Fixture.timeout_error;
                  Fixture.ok200 "body"]
                 {| status_code := 200; text := "body" |} [] tr 7)
    as (tr' & Hrun & Hn).
  - reflexivity.
  - simpl. lia.
  - exists tr'. split; [exact Hrun|]. rewrite Hn. reflexivity.
Defined.

(** * Facts about Python strings *)

Section PyStrFacts.

Lemma append_cons c s t : String c s +:+ t = String c (s +:+ t).
Proof. reflexivity. Qed.

Lemma append_nil_r s : s +:+ "" = s.
Proof. induction s as [|c s IH]; [done|]. by rewrite append_cons, IH. Qed.

Lemma append_assoc s1 s2 s3 : (s1 +:+ s2) +:+ s3 = s1 +:+ (s2 +:+ s3).
Proof.
  induction s1 as [|c s1 IH]; [done|]. by rewrite !append_cons, IH.
Qed.

Lemma rev_app_append_r s1 s2 s3 :
  String.rev_app s1 s2 +:+ s3 = String.rev_app s1 (s2 +:+ s3).
Proof.
  revert s2. induction s1 as [|c s1 IH]; intros s2; [done|].
  simpl. by rewrite IH.
Qed.

Lemma rev_app_append s1 s2 : String.rev_app s1 s2 = String.rev s1 +:+ s2.
Proof. unfold String.rev. by rewrite rev_app_append_r. Qed.

Lemma rev_cons c s : String.rev (String c s) = String.rev s +:+ String c "".
Proof. unfold String.rev at 1. simpl. apply rev_app_append. Qed.

Lemma rev_append s1 s2 :
  String.rev (s1 +:+ s2) = String.rev s2 +:+ String.rev s1.
Proof.
  induction s1 as [|c s1 IH].
  - change (String.rev "") with "". by rewrite append_nil_r.
  - by rewrite append_cons, !rev_cons, IH, append_assoc.
Qed.

Lemma rev_involutive s : String.rev (String.rev s) = s.
Proof.
  induction s as [|c s IH]; [done|].
  by rewrite rev_cons, rev_append, IH.
Qed.

Lemma rev_empty s : String.rev s = "" → s = "".
Proof. intros Hs. by rewrite <- (rev_involutive s), Hs. Qed.

Lemma lstrip_solid s : solid_start s → PyStr.lstrip s = s.
Proof. intros (c & s' & -> & Hc). simpl. by rewrite Hc. Qed.

Lemma lstrip_result s :
  PyStr.lstrip s = "" ∨ solid_start (PyStr.lstrip s).
Proof.
  induction s as [|c s IH]; simpl; [by left|].
  destruct (PyStr.is_space c) eqn:Hc; [done|].
  right. by exists c, s.
Qed.

Lemma lstrip_before_solid u c v :
  PyStr.is_space c = false →
  PyStr.lstrip (u +:+ String c v) = PyStr.lstrip u +:+ String c v.
Proof.
  intros Hc. induction u as [|d u IH]; simpl.
  - by rewrite Hc.
  - by destruct (PyStr.is_space d).
Qed.

Lemma solid_start_append s t : solid_start s → solid_start (s +:+ t).
Proof. intros (c & s' & -> & Hc). by exists c, (s' +:+ t). Qed.

(** What [strip] returns is empty or solid at both ends. *)
Lemma strip_result s :
  PyStr.strip s = ""
  ∨ (solid_start (PyStr.strip s) ∧ solid_start (String.rev (PyStr.strip s))).
Proof.
  unfold PyStr.strip, PyStr.rstrip.
  destruct (lstrip_result s) as [->|(c & t & -> & Hc)]; [by left|].
  rewrite rev_cons, (lstrip_before_solid _ _ _ Hc).
  rewrite rev_involutive. right. split.
  - rewrite rev_append.
    by exists c, (String.rev (PyStr.lstrip (String.rev t))).
  - destruct (lstrip_result (String.rev t)) as [->|Hsolid].
    + by exists c, "".
    + by apply solid_start_append.
Qed.

Lemma trimmed_solid s :
  solid_start s → solid_start (String.rev s) → trimmed s.
Proof.
  intros Hs Hr. unfold trimmed, PyStr.strip, PyStr.rstrip.
  by rewrite (lstrip_solid _ Hs), (lstrip_solid _ Hr), rev_involutive.
Qed.

Lemma trimmed_empty : trimmed "".
Proof. reflexivity. Qed.

Lemma strip_trimmed s : trimmed (PyStr.strip s).
Proof.
  destruct (strip_result s) as [->|[Hs Hr]];
    [apply trimmed_empty|by apply trimmed_solid].
Qed.

(** Joining pieces that are solid at both ends gives such a string. *)
Lemma join_solid sep ps :
  ps ≠ [] →
  Forall (λ p, solid_start p ∧ solid_start (String.rev p)) ps →
  solid_start (PyStr.join sep ps)
  ∧ solid_start (String.rev (PyStr.join sep ps)).
Proof.
  induction ps as [|p ps IH]; [done|]. intros _ Hps.
  apply Forall_cons in Hps as [[Hp Hr] Hps].
  destruct ps as [|q ps]; [done|].
  destruct IH as [_ IHr]; [done..|].
  change (PyStr.join sep (p :: q :: ps))
    with (p +:+ sep +:+ PyStr.join sep (q :: ps)).
  split; [by apply solid_start_append|].
  rewrite !rev_append, append_assoc. by apply solid_start_append.
Qed.

Lemma get_text_trimmed sep n : trimmed (Soup.get_text sep true n).
Proof.
  unfold Soup.get_text, Soup.all_strings.
  set (raw := omap Soup.text_of (Soup.descendants n)).
  destruct (List.filter PyStr.nonempty (PyStr.strip <$> raw)) as [|p ps] eqn:Hps;
    [apply trimmed_empty|].
  rewrite <- Hps.
  destruct (join_solid sep (List.filter PyStr.nonempty (PyStr.strip <$> raw)))
    as [Hs Hr]; [by rewrite Hps| |by apply trimmed_solid].
  apply Forall_forall. intros x Hx.
  apply list_elem_of_In, filter_In in Hx as [Hx Hne].
  apply list_elem_of_In, list_elem_of_fmap in Hx as (y & -> & _).
  destruct (strip_result y) as [Hempty|?]; [|done].
  by rewrite Hempty in Hne.
Qed.

End PyStrFacts.

(** * Further properties of the page extractor *)

Section ExtractorInvariants.
Context `{Platform}.

Lemma for_each_inv_ok {A B} (f : A → result B) xs ys :
  for_each f xs = Ok ys → Forall2 (λ x y, f x = Ok y) xs ys.
Proof.
  revert ys. induction xs as [|x xs IH]; intros ys; simpl.
  - intros [= <-]. constructor.
  - destruct (f x) as [y|e] eqn:Hx; [|done]. simpl.
    destruct (for_each f xs) as [ys'|e]; [|done]. simpl.
    intros [= <-]. constructor; auto.
Qed.

Lemma for_each_inv_raise {A B} (f : A → result B) xs e :
  for_each f xs = Raise e → Exists (λ x, f x = Raise e) xs.
Proof.
  induction xs as [|x xs IH]; simpl; [done|].
  destruct (f x) as [y|e'] eqn:Hx; simpl.
  - destruct (for_each f xs) as [ys'|e']; [done|]. simpl.
    intros [= ->]. right. by apply IH.
  - intros [= ->]. by left.
Qed.

Lemma parse_card_no_heading page_url card :
  heading_link card = None →
  ∃ msg, parse_card page_url card = Raise (AttributeError msg).
Proof.
  unfold heading_link, parse_card.
  destruct (Soup.find "h3" card) as [h3|]; simpl; [|by eexists].
  intros ->. by eexists.
Qed.

Lemma urljoin_raise_kind base url e :
  urljoin base url = Raise e → ∃ msg, e = ValueError msg.
Proof.
  unfold urljoin. destruct (negb _); [done|]. destruct (negb _); [done|].
  destruct (urljoin_rfc base url) as [u|msg]; [done|].
  intros [= <-]. by exists msg.
Qed.

Lemma card_rejected_not_resolves page_url card :
  card_rejected page_url card → ¬ card_resolves page_url card.
Proof.
  intros (h & msg & Hh & Hraise) Hres.
  destruct (Hres h Hh) as [u Hu]. congruence.
Qed.

Lemma next_rejected_not_resolves page_url soup :
  next_rejected page_url soup → ¬ next_resolves page_url soup.
Proof.
  intros (a & h & msg & Ha & Hh & Hraise) Hres.
  destruct (Hres a h Ha Hh) as [u Hu]. congruence.
Qed.

(** A card makes the loop body raise in one of two ways. *)
Lemma parse_card_inv_raise page_url card e :
  parse_card page_url card = Raise e →
  (heading_link card = None ∧ ∃ msg, e = AttributeError msg)
  ∨ (has_heading_link card ∧ card_rejected page_url card
     ∧ ∃ msg, e = ValueError msg).
Proof.
  destruct (heading_link card) as [a|] eqn:Ha.
  - rewrite (parse_card_heading _ _ _ Ha).
    destruct (urljoin page_url _) as [u|e'] eqn:Hu; [done|].
    intros [= ->]. right.
    destruct (urljoin_raise_kind _ _ _ Hu) as [msg ->].
    split; [unfold has_heading_link; by rewrite Ha|]. split; [|by exists msg].
    rewrite (link_attr_get _ _ _ Ha) in Hu.
    destruct (link_attr "href" card) as [h|] eqn:Hh.
    + by exists h, msg.
    + change (PyStr.strip (default "" None)) with "" in Hu.
      by rewrite urljoin_empty_ref in Hu.
  - destruct (parse_card_no_heading page_url card Ha) as [msg ->].
    intros [= <-]. left. split; [done|]. by exists msg.
Qed.

Lemma parse_card_inv_ok page_url card row :
  parse_card page_url card = Ok row →
  has_heading_link card
  ∧ card_resolves page_url card
  ∧ page_num row = None
  ∧ rating row ≠ "star-rating"
  ∧ trimmed (title row) ∧ trimmed (price_raw row)
  ∧ trimmed (availability row).
Proof.
  destruct (heading_link card) as [a|] eqn:Ha.
  - rewrite (parse_card_heading _ _ _ Ha).
    destruct (urljoin page_url _) as [u|e'] eqn:Hu; [|done].
    intros [= <-]. simpl.
    split; [unfold has_heading_link; by rewrite Ha|]. split.
    { intros h Hh. exists u.
      by rewrite (link_attr_get _ _ _ Ha), Hh in Hu. }
    split; [done|]. split; [|split; [|split]].
    + destruct (Soup.select_one "p" ["star-rating"] card) as [t|]; [|done].
      unfold rating_of.
      destruct (List.filter _ (Soup.get_classes t)) as [|c cs] eqn:Hf; [done|].
      simpl. intros ->.
      assert (In "star-rating"
                (List.filter (λ c, negb (String.eqb c "star-rating"))
                   (Soup.get_classes t))) as Hin
        by (rewrite Hf; by left).
      by apply filter_In in Hin as [_ Hin].
    + apply strip_trimmed.
    + destruct (Soup.select_one "p" ["price_color"] card);
        [apply get_text_trimmed|apply trimmed_empty].
    + destruct (Soup.select_one "p" ["instock"; "availability"] card);
        [apply get_text_trimmed|apply trimmed_empty].
  - destruct (parse_card_no_heading page_url card Ha) as [msg ->]. done.
Qed.

(** The rows come from the cards one by one, and the frame of rows does not
    depend on the pagination anchor. *)
Lemma parse_books_inv_ok html page_url rows next_url :
  parse_books_from_catalog_page html page_url = Ok (rows, next_url) →
  Forall2 (λ card row, parse_card page_url card = Ok row)
    (item_cards (html_parser html)) rows.
Proof.
  unfold parse_books_from_catalog_page, parse_books_from_soup.
  fold (item_cards (html_parser html)).
  destruct (for_each _ _) as [rows'|e] eqn:Hrows; simpl; [|done].
  apply for_each_inv_ok in Hrows. intros Hret.
  assert (rows' = rows) as <-; [|done].
  destruct (Soup.select_one_child _ _ _ _) as [a|]; [|by injection Hret].
  destruct (Soup.getitem a "href") as [href|]; simpl in Hret; [|done].
  destruct (urljoin page_url href); simpl in Hret; [by injection Hret|done].
Qed.

End ExtractorInvariants.

Section ExtractorExtras.
Context `{Platform}.

(** X6.  When the extractor returns, the next URL is absent exactly when the
    document has no [li.next > a] anchor; otherwise it is what [urljoin]
    gives for the page URL and the anchor's [href] as written (not
    trimmed), whatever the cards are.  In particular an anchor with an
    empty [href] gives the page URL itself as the next URL. *)
Theorem parse_books_next_url (html page_url : string)
    (rows : list book_row) (next_url : option string) :
  parse_books_from_catalog_page html page_url = Ok (rows, next_url) →
  match Soup.select_one_child "li" ["next"] "a" (html_parser html) with
  | None => next_url = None
  | Some a =>
      ∃ href u, Soup.assoc "href" (Soup.attrs_of a) = Some href
                ∧ urljoin page_url href = Ok u
                ∧ next_url = Some u
                ∧ (href = "" → next_url = Some page_url)
  end.
Proof.
  unfold parse_books_from_catalog_page, parse_books_from_soup.
  destruct (for_each _ _) as [rows'|e]; simpl; [|done].
  destruct (Soup.select_one_child _ _ _ _) as [a|]; [|by intros [= _ <-]].
  unfold Soup.getitem.
  destruct (Soup.assoc "href" (Soup.attrs_of a)) as [href|]; simpl; [|done].
  destruct (urljoin page_url href) as [u|e] eqn:Hu; simpl; [|done].
  intros [= _ <-]. exists href, u. split; [done|]. split; [done|].
  split; [done|]. intros ->. rewrite urljoin_empty_ref in Hu. congruence.
Qed.

(** X7.  What decides the outcome of the extractor.  It returns only when
    every item card has a heading link whose [href] [urljoin] resolves and
    the pagination anchor, if any, has an [href] that [urljoin] resolves
    (and then it does return).  It raises [AttributeError] only when some
    card has no heading link; [ValueError] only when [urljoin] rejects the
    [href] of some card or, all cards being in order, that of the
    pagination anchor; and [KeyError "href"] only when all cards are in
    order and the pagination anchor has no [href]. *)
Theorem parse_books_outcome (html page_url : string) :
  match parse_books_from_catalog_page html page_url with
  | Ok _ =>
      Forall has_heading_link (item_cards (html_parser html))
      ∧ Forall (card_resolves page_url) (item_cards (html_parser html))
      ∧ next_link_ok (html_parser html)
      ∧ next_resolves page_url (html_parser html)
  | Raise (AttributeError _) =>
      Exists (λ card, heading_link card = None) (item_cards (html_parser html))
  | Raise (KeyError key) =>
      key = "href"
      ∧ Forall has_heading_link (item_cards (html_parser html))
      ∧ Forall (card_resolves page_url) (item_cards (html_parser html))
      ∧ ¬ next_link_ok (html_parser html)
  | Raise (ValueError _) =>
      Exists (card_rejected page_url) (item_cards (html_parser html))
      ∨ (Forall has_heading_link (item_cards (html_parser html))
         ∧ Forall (card_resolves page_url) (item_cards (html_parser html))
         ∧ next_rejected page_url (html_parser html))
  end
  ∧ (Forall has_heading_link (item_cards (html_parser html)) →
     Forall (card_resolves page_url) (item_cards (html_parser html)) →
     next_link_ok (html_parser html) →
     next_resolves page_url (html_parser html) →
     ∃ rows next_url,
       parse_books_from_catalog_page html page_url = Ok (rows, next_url)).
Proof.
  split.
  2:{ intros Hcards Hres Hnext Hnres.
      destruct (parse_books_from_soup_ok (html_parser html) page_url Hcards
                  Hres Hnext Hnres) as (rows & next_url & Hparse & _).
      by exists rows, next_url. }
  unfold parse_books_from_catalog_page, parse_books_from_soup.
  fold (item_cards (html_parser html)).
  destruct (for_each _ _) as [rows|e] eqn:Hrows; simpl.
  - apply for_each_inv_ok in Hrows.
    assert (Forall has_heading_link (item_cards (html_parser html))
            ∧ Forall (card_resolves page_url) (item_cards (html_parser html)))
      as [Hall Hres].
    { clear -Hrows. induction Hrows as [|card row cards rows Hrow _ [IH1 IH2]];
        [by split|].
      apply parse_card_inv_ok in Hrow as (? & ? & _).
      split; by constructor. }
    unfold next_link_ok, next_resolves.
    destruct (Soup.select_one_child _ _ _ _) as [a|] eqn:Ha; [|done].
    unfold Soup.getitem.
    destruct (Soup.assoc "href" (Soup.attrs_of a)) as [href|] eqn:Hhref; simpl.
    + destruct (urljoin page_url href) as [u|e] eqn:Hu; simpl.
      * split; [done|]. split; [done|]. split.
        -- intros a' [= <-]. by rewrite Hhref.
        -- intros a' h [= <-] Hh. exists u. congruence.
      * destruct (urljoin_raise_kind _ _ _ Hu) as [msg ->].
        right. split; [done|]. split; [done|]. by exists a, href, msg.
    + split; [done|]. split; [done|]. split; [done|].
      intros Hok. destruct (Hok a eq_refl) as [href Hsome]. congruence.
  - apply for_each_inv_raise in Hrows.
    apply Exists_exists in Hrows as (card & Hin & Hcard).
    apply parse_card_inv_raise in Hcard
      as [[Hnone [msg ->]]|(_ & Hrej & [msg ->])].
    + apply Exists_exists. by exists card.
    + left. apply Exists_exists. by exists card.
Qed.

(** X8.  When the extractor returns, there is one row per item card; no row
    has a page number yet; a rating is never the marker class "star-rating"
    itself; and title, price and availability carry no white space at
    either end. *)
Theorem parse_books_rows_shape (html page_url : string)
    (rows : list book_row) (next_url : option string) :
  parse_books_from_catalog_page html page_url = Ok (rows, next_url) →
  length rows = length (item_cards (html_parser html))
  ∧ Forall (λ row,
              page_num row = None
              ∧ rating row ≠ "star-rating"
              ∧ trimmed (title row) ∧ trimmed (price_raw row)
              ∧ trimmed (availability row)) rows.
Proof.
  intros Hrows%parse_books_inv_ok.
  split; [symmetry; by eapply Forall2_length|].
  induction Hrows as [|card row cards rows Hrow _ IH]; constructor; [|done].
  by apply parse_card_inv_ok in Hrow as (_ & _ & ?).
Qed.

End ExtractorExtras.

(** X6, witness: the first fixture page links to [page-2.html]. *)
Lemma parse_books_next_url_witness :
  match Soup.select_one_child "li" ["next"] "a"
          (@html_parser Fixture.platform Fixture.page1_html) with
  | None => Some "https://books.toscrape.com/catalogue/page-2.html" = None
  | Some a =>
      ∃ href u, Soup.assoc "href" (Soup.attrs_of a) = Some href
                ∧ @urljoin Fixture.platform Fixture.page1_url href = Ok u
                ∧ Some "https://books.toscrape.com/catalogue/page-2.html"
                  = Some u
                ∧ (href = "" →
                   Some "https://books.toscrape.com/catalogue/page-2.html"
                   = Some Fixture.page1_url)
  end.
Proof.
  apply (@parse_books_next_url Fixture.platform Fixture.page1_html
           Fixture.page1_url [Fixture.row_a; Fixture.row_b]).
  reflexivity.
Defined.

(** X8, witness: the rows of the first fixture page. *)
Lemma parse_books_rows_shape_witness :
  length [Fixture.row_a; Fixture.row_b]
  = length (item_cards (@html_parser Fixture.platform Fixture.page1_html))
  ∧ Forall (λ row,
              page_num row = None
              ∧ rating row ≠ "star-rating"
              ∧ trimmed (title row) ∧ trimmed (price_raw row)
              ∧ trimmed (availability row))
      [Fixture.row_a; Fixture.row_b].
Proof.
  apply (@parse_books_rows_shape Fixture.platform Fixture.page1_html
           Fixture.page1_url [Fixture.row_a; Fixture.row_b]
           (Some "https://books.toscrape.com/catalogue/page-2.html")).
  reflexivity.
Defined.

(** * Further properties of the traversal driver *)

Section TraceFacts.

Lemma rested_after_app b tr1 tr2 :
  rested_after b (tr1 ++ tr2) = rested_after (rested_after b tr1) tr2.
Proof.
  revert b. induction tr1 as [|ev tr1 IH]; intros b; [done|].
  destruct ev; simpl; auto.
Qed.

Lemma paced_app b tr1 tr2 :
  paced b (tr1 ++ tr2) = paced b tr1 && paced (rested_after b tr1) tr2.
Proof.
  revert b. induction tr1 as [|ev tr1 IH]; intros b; [done|].
  destruct ev; simpl; rewrite ?IH; auto using andb_assoc.
Qed.

Lemma pages_visited_app tr1 tr2 :
  pages_visited (tr1 ++ tr2) = (pages_visited tr1 + pages_visited tr2)%nat.
Proof. unfold pages_visited. by rewrite List.filter_app, length_app. Qed.

Lemma attempts_made_app tr1 tr2 :
  attempts_made (tr1 ++ tr2) = (attempts_made tr1 + attempts_made tr2)%nat.
Proof. unfold attempts_made. by rewrite List.filter_app, length_app. Qed.

Lemma tag_pages_nil first : tag_pages first [] = [].
Proof. reflexivity. Qed.


End TraceFacts.


Section DriverInvariants.
Context `{Platform}.
Variable config : ParserConfig.

Lemma scrape_loop_more_fuel fuel current_url p acc n res :
  scrape_loop fuel config current_url p acc n = Some res →
  scrape_loop (S fuel) config current_url p acc n = Some res.
Proof.
  revert current_url p acc n res.
  induction fuel as [|fuel IH]; intros current_url p acc n res; [done|].
  intros Hrun. change (scrape_loop (S (S fuel)) config current_url p acc n)
    with (match while_url current_url with
          | None => Some (Ok acc, n, [])
          | Some url =>
              let '(response, n1, tr1) := fetch_with_retries url config n in
              let tr := EvPrint (LogPage (p + 1) url) :: tr1 in
              match response with
              | None => Some (Ok acc, n1, tr ++ [EvPrint (LogSkip url)])
              | Some response =>
                  match parse_books_from_catalog_page (text response) url with
                  | Raise e => Some (Raise e, n1, tr)
                  | Ok (rows, next_url) =>
                      match set_page_num (p + 1) <$> rows with
                      | [] =>
                          Some (Ok (acc ++ (set_page_num (p + 1) <$> rows)),
                                n1, tr ++ [EvPrint LogStop])
                      | _ :: _ =>
                          match scrape_loop (S fuel) config next_url (p + 1)
                                  (acc ++ (set_page_num (p + 1) <$> rows)) n1
                          with
                          | None => None
                          | Some (r, n2, tr2) =>
                              Some (r, n2,
                                    tr ++ sleep_human (delay_seconds config)
                                       ++ tr2)
                          end
                      end
                  end
              end
          end).
  simpl in Hrun.
  destruct (while_url current_url) as [url|]; [|done].
  destruct (fetch_with_retries url config n) as [[response n1] tr1].
  destruct response as [response|]; [|done].
  destruct (parse_books_from_catalog_page _ _) as [[rows next_url]|e]; [|done].
  destruct (set_page_num (p + 1) <$> rows) as [|r0 rows0]; [done|].
  destruct (scrape_loop fuel config next_url _ _ n1) as [res1|] eqn:Hrec;
    [|done].
  by rewrite (IH _ _ _ _ _ Hrec).
Qed.

Lemma scrape_loop_add_fuel fuel extra current_url p acc n res :
  scrape_loop fuel config current_url p acc n = Some res →
  scrape_loop (fuel + extra) config current_url p acc n = Some res.
Proof.
  intros Hrun. induction extra as [|extra IH].
  - by rewrite Nat.add_0_r.
  - rewrite Nat.add_succ_r. by apply scrape_loop_more_fuel.
Qed.


(** [scrape_events] is the trace of the loop when the loop returns. *)
Lemma scrape_loop_events fuel current_url p acc n r n' tr :
  scrape_loop fuel config current_url p acc n = Some (r, n', tr) →
  scrape_events fuel config current_url p n = tr.
Proof.
  revert current_url p acc n r n' tr.
  induction fuel as [|fuel IH]; intros current_url p acc n r n' tr; simpl;
    [done|].
  destruct (while_url current_url) as [url|]; [|by intros [= _ _ <-]].
  destruct (fetch_with_retries url config n) as [[response n1] tr1].
  destruct response as [response|]; [|by intros [= _ _ <-]].
  destruct (parse_books_from_catalog_page _ _) as [[rows next_url]|e];
    [|by intros [= _ _ <-]].
  destruct rows as [|r0 rows]; [by intros [= _ _ <-]|].
  change (set_page_num (p + 1) <$> r0 :: rows)
    with (set_page_num (p + 1) r0 :: (set_page_num (p + 1) <$> rows)).
  cbv iota.
  destruct (scrape_loop fuel _ _ _ _ _) as [[[r2 n2] tr2]|] eqn:Hrec; [|done].
  intros [= _ _ <-]. by rewrite (IH _ _ _ _ _ _ _ Hrec).
Qed.

(** Watching a run for one more pass only adds events. *)
Lemma scrape_events_more_fuel fuel current_url p n :
  scrape_events fuel config current_url p n
  `prefix_of` scrape_events (S fuel) config current_url p n.
Proof.
  revert current_url p n.
  induction fuel as [|fuel IH]; intros current_url p n.
  { apply prefix_nil. }
  change (scrape_events (S (S fuel)) config current_url p n)
    with (match while_url current_url with
          | None => []
          | Some url =>
              let '(response, n1, tr1) := fetch_with_retries url config n in
              let tr := EvPrint (LogPage (p + 1) url) :: tr1 in
              match response with
              | None => tr ++ [EvPrint (LogSkip url)]
              | Some response =>
                  match parse_books_from_catalog_page (text response) url with
                  | Raise e => tr
                  | Ok (rows, next_url) =>
                      match rows with
                      | [] => tr ++ [EvPrint LogStop]
                      | _ :: _ =>
                          tr ++ sleep_human (delay_seconds config)
                             ++ scrape_events (S fuel) config next_url
                                  (p + 1) n1
                      end
                  end
              end
          end).
  simpl.
  destruct (while_url current_url) as [url|]; [|done].
  destruct (fetch_with_retries url config n) as [[response n1] tr1].
  destruct response as [response|]; [|done].
  destruct (parse_books_from_catalog_page _ _) as [[rows next_url]|e]; [|done].
  destruct rows as [|r0 rows]; [done|].
  apply prefix_cons, prefix_app, prefix_cons, IH.
Qed.

Lemma fetch_attempts_no_page_line url k attempt n r n' tr :
  fetch_attempts url config k attempt n = (r, n', tr) →
  forallb (λ ev, negb (is_page_line ev)) tr = true.
Proof.
  revert attempt n r n' tr.
  induction k as [|k IH]; intros attempt n r n' tr.
  - by intros [= <- <- <-].
  - fetch_cases IH; done.
Qed.

Lemma requests_before_page_app tr rest :
  forallb (λ ev, negb (is_page_line ev)) tr = true →
  requests_before_page (tr ++ rest)
  = (attempts_made tr + requests_before_page rest)%nat.
Proof.
  induction tr as [|ev tr IH]; [done|]. simpl.
  intros [Hev Htr]%andb_true_iff. specialize (IH Htr).
  destruct ev as [| | | |[]]; simpl in *; try done;
    unfold attempts_made in *; simpl; by rewrite IH.
Qed.

Lemma requests_by_page_app tr rest :
  forallb (λ ev, negb (is_page_line ev)) tr = true →
  requests_by_page (tr ++ rest) = requests_by_page rest.
Proof.
  induction tr as [|ev tr IH]; [done|]. simpl.
  intros [Hev Htr]%andb_true_iff. specialize (IH Htr).
  by destruct ev as [| | | |[]].
Qed.

(** Every request of a trace belongs to the page whose line precedes it,
    save those before the first page line. *)
Lemma attempts_made_by_page tr :
  attempts_made tr
  = (requests_before_page tr + sum_list (requests_by_page tr))%nat.
Proof.
  induction tr as [|ev tr IH]; [done|].
  destruct ev as [| | | |[]]; unfold attempts_made in *; simpl in *; lia.
Qed.

(** What the events of a run satisfy after any number of passes. *)
Lemma scrape_events_invariant fuel current_url p n :
  paced true (scrape_events fuel config current_url p n) = true
  ∧ requests_before_page (scrape_events fuel config current_url p n) = 0%nat
  ∧ Forall (λ k, (k ≤ Z.to_nat (max_retries config))%nat)
      (requests_by_page (scrape_events fuel config current_url p n)).
Proof.
  revert current_url p n.
  induction fuel as [|fuel IH]; intros current_url p n; simpl; [done|].
  destruct (while_url current_url) as [url|]; [|done].
  destruct (fetch_with_retries url config n) as [[response n1] tr1] eqn:Hfetch.
  pose proof (fetch_attempts_bounded _ _ _ _ _ _ _ _ Hfetch) as [Hbound _].
  pose proof (fetch_attempts_paced _ _ _ _ _ _ _ _ Hfetch) as (Hpaced & _ & _).
  pose proof (fetch_attempts_no_page_line _ _ _ _ _ _ _ Hfetch) as Hlines.
  assert (∀ rest,
            paced true rest = true →
            requests_before_page rest = 0%nat →
            Forall (λ k, (k ≤ Z.to_nat (max_retries config))%nat)
              (requests_by_page rest) →
            (∀ b, paced b rest = paced true rest) →
            paced true (EvPrint (LogPage (p + 1) url) :: tr1 ++ rest) = true
            ∧ requests_before_page
                (EvPrint (LogPage (p + 1) url) :: tr1 ++ rest) = 0%nat
            ∧ Forall (λ k, (k ≤ Z.to_nat (max_retries config))%nat)
                (requests_by_page
                   (EvPrint (LogPage (p + 1) url) :: tr1 ++ rest))) as Hstep.
  { intros rest Hp Hb Hall Hany. split; [|split; [done|]].
    - simpl. by rewrite paced_app, Hpaced, Hany.
    - simpl. rewrite requests_before_page_app, requests_by_page_app, Hb by done.
      constructor; [lia|done]. }
  destruct response as [response|].
  - destruct (parse_books_from_catalog_page _ _) as [[rows next_url]|e].
    + destruct rows as [|r0 rows].
      * by apply Hstep.
      * destruct (IH next_url (p + 1) n1) as (Hp & Hb & Hall).
        by apply Hstep.
    + rewrite <- (app_nil_r tr1). by apply Hstep.
  - by apply Hstep.
Qed.

End DriverInvariants.

Section DriverPaths.
Context `{Platform}.
Variable config : ParserConfig.

(** The loop along a prefix of good pages: it arrives at the loop test for
    the page they lead to, with their rows appended and their count added
    to the page counter. *)
Lemma scrape_loop_reaches n url pages n1 url1 :
  reaches config n url pages n1 url1 →
  ∀ fuel p acc,
  ∃ pre,
    scrape_loop (length pages + fuel) config (Some url) p acc n
    = match scrape_loop fuel config (Some url1)
              (p + Z.of_nat (length pages))
              (acc ++ tag_pages (p + 1) pages) n1 with
      | None => None
      | Some (r, n2, tr2) => Some (r, n2, pre ++ tr2)
      end.
Proof.
  induction 1 as
    [n url
    |n url response n1 tr rows next_url pages n2 url2 Hurl Hfetch Hparse
       Hrows _ IH];
    intros fuel p acc.
  - exists []. simpl. rewrite Z.add_0_r, tag_pages_nil, app_nil_r.
    by destruct (scrape_loop _ _ _ _ _ _) as [[[??]?]|].
  - change (length (rows :: pages) + fuel)%nat
      with (S (length pages + fuel)).
    rewrite (scrape_loop_page _ _ _ _ _ _ _ _ _ _ _ Hurl Hfetch Hparse Hrows).
    destruct (IH fuel (p + 1) (acc ++ (set_page_num (p + 1) <$> rows)))
      as (pre & ->).
    exists ((EvPrint (LogPage (p + 1) url) :: tr)
              ++ sleep_human (delay_seconds config) ++ pre).
    rewrite tag_pages_cons, <- (assoc_L (++) acc).
    replace (p + 1 + Z.of_nat (length pages))
      with (p + Z.of_nat (length (rows :: pages))) by (simpl length; lia).
    destruct (scrape_loop fuel _ _ _ _ _) as [[[r n3] tr2]|]; [|done].
    by rewrite <- !(assoc_L (++)).
Qed.

(** A page that links to itself, on a server that answers it the same way
    again, keeps the loop going whatever the fuel. *)
Lemma scrape_loop_self_link url n response tr rows :
  url ≠ "" →
  fetch_with_retries url config n = (Some response, n, tr) →
  parse_books_from_catalog_page (text response) url = Ok (rows, Some url) →
  rows ≠ [] →
  ∀ fuel p acc, scrape_loop fuel config (Some url) p acc n = None.
Proof.
  intros Hurl Hfetch Hparse Hrows.
  induction fuel as [|fuel IH]; intros p acc; [done|].
  rewrite (scrape_loop_page _ _ _ _ _ _ _ _ _ _ _ Hurl Hfetch Hparse Hrows).
  by rewrite IH.
Qed.

(** [run_events] is the trace of a run that returns. *)
Lemma scrape_all_books_events fuel n r n' tr :
  scrape_all_books fuel config n = Some (r, n', tr) →
  tr = run_events fuel config n.
Proof.
  intros [(e & Hurl0 & _ & _ & ->)|(url0 & tr1 & Hurl0 & Hloop & ->)]%scrape_all_books_inv;
    unfold run_events; rewrite Hurl0; [done|].
  by rewrite (scrape_loop_events _ _ _ _ _ _ _ _ _ Hloop).
Qed.

End DriverPaths.

Section DriverExtras.
Context `{Platform}.


(** X10.  The requests of a run, observed for any number of passes through
    the loop and whether or not the run ever returns, split by page: no
    request is issued before the first page line, every request belongs to
    the page whose line precedes it, and no page gets more than
    [max_retries] requests.  The trace of a run that returns is such an
    observation. *)
Theorem scrape_all_books_request_budget (config : ParserConfig) (fuel : nat)
    (n : net) :
  Forall (λ k, (k ≤ Z.to_nat (max_retries config))%nat)
    (requests_by_page (run_events fuel config n))
  ∧ attempts_made (run_events fuel config n)
    = sum_list (requests_by_page (run_events fuel config n))
  ∧ ∀ r n' tr,
      scrape_all_books fuel config n = Some (r, n', tr) →
      tr = run_events fuel config n.
Proof.
  split; [|split].
  - unfold run_events. destruct (first_url config) as [url0|e]; simpl;
      [|constructor].
    by destruct (scrape_events_invariant config fuel (Some url0) 0 n)
      as (_ & _ & ?).
  - rewrite attempts_made_by_page. unfold run_events.
    destruct (first_url config) as [url0|e]; simpl; [|done].
    by destruct (scrape_events_invariant config fuel (Some url0) 0 n)
      as (_ & -> & _).
  - intros r n' tr. apply scrape_all_books_events.
Qed.

(** X11.  A run never issues two requests without a pause between them:
    in the events of a run, observed for any number of passes through the
    loop and whether or not the run ever returns, every request after the
    first comes after a [sleep_human] that follows the request before it.
    Observing longer only adds events, and the trace of a run that returns
    is such an observation. *)
Theorem scrape_all_books_paced (config : ParserConfig) (fuel : nat)
    (n : net) :
  paced true (run_events fuel config n) = true
  ∧ run_events fuel config n `prefix_of` run_events (S fuel) config n
  ∧ ∀ r n' tr,
      scrape_all_books fuel config n = Some (r, n', tr) →
      tr = run_events fuel config n.
Proof.
  split; [|split].
  - unfold run_events. destruct (first_url config) as [url0|e]; simpl; [|done].
    by destruct (scrape_events_invariant config fuel (Some url0) 0 n)
      as (? & _).
  - unfold run_events. destruct (first_url config) as [url0|e]; [|done].
    apply prefix_cons, scrape_events_more_fuel.
  - intros r n' tr. apply scrape_all_books_events.
Qed.

(** X12.  An exception of the extractor is not caught by the driver: when,
    after any number of completed pages, a page is fetched and the
    extractor raises on it, [scrape_all_books] raises that exception, and
    the rows of the completed pages are not returned.  ([url0] is the first
    catalogue URL as [urljoin] gives it.) *)
Theorem scrape_all_books_extractor_raises (config : ParserConfig) (n : net)
    (url0 : string) (pages : list (list book_row)) (n1 : net) (url : string)
    (response : Response) (n2 : net) (tr : list event) (e : exn)
    (fuel : nat) :
  first_url config = Ok url0 →
  reaches config n url0 pages n1 url →
  url ≠ "" →
  fetch_with_retries url config n1 = (Some response, n2, tr) →
  parse_books_from_catalog_page (text response) url = Raise e →
  (length pages < fuel)%nat →
  ∃ tr', scrape_all_books fuel config n = Some (Raise e, n2, tr').
Proof.
  intros Hurl0 Hreach Hurl Hfetch Hparse Hfuel.
  unfold scrape_all_books. fold (first_url config). rewrite Hurl0.
  destruct (scrape_loop_reaches config _ _ _ _ _ Hreach
              (fuel - length pages)%nat 0 []) as (pre & Hloop).
  replace (length pages + (fuel - length pages))%nat with fuel in Hloop
    by lia.
  rewrite Hloop.
  destruct (fuel - length pages)%nat as [|k] eqn:Hk; [lia|].
  destruct url as [|c u]; [done|].
  simpl. rewrite Hfetch, Hparse. by eexists.
Qed.

(** X14.  The driver has no protection against a page that links to itself:
    when, after any number of completed pages, it arrives at a page whose
    next link is the page's own URL, and the server answers that page the
    same way every time, the loop never ends (no amount of fuel makes the
    run return).  ([url0] is the first catalogue URL as [urljoin] gives
    it.) *)
Theorem scrape_all_books_self_link_diverges (config : ParserConfig) (n : net)
    (url0 : string) (pages : list (list book_row)) (n1 : net) (url : string)
    (response : Response) (tr : list event) (rows : list book_row) :
  first_url config = Ok url0 →
  reaches config n url0 pages n1 url →
  url ≠ "" →
  fetch_with_retries url config n1 = (Some response, n1, tr) →
  parse_books_from_catalog_page (text response) url = Ok (rows, Some url) →
  rows ≠ [] →
  ∀ fuel, scrape_all_books fuel config n = None.
Proof.
  intros Hurl0 Hreach Hurl Hfetch Hparse Hrows fuel.
  unfold scrape_all_books. fold (first_url config). rewrite Hurl0.
  destruct (scrape_loop fuel config _ 0 [] n) as [res|] eqn:Hrun; [|done].
  apply (scrape_loop_add_fuel _ _ (length pages)) in Hrun.
  destruct (scrape_loop_reaches config _ _ _ _ _ Hreach fuel 0 [])
    as (pre & Hloop).
  rewrite (scrape_loop_self_link config _ _ _ _ _ Hurl Hfetch Hparse Hrows)
    in Hloop.
  rewrite Nat.add_comm in Hrun. congruence.
Qed.

End DriverExtras.


(** X10, witness: a run that returns (two pages, the second after one
    retry) and seven passes of the run that never does (the page that links
    to itself). *)
Lemma scrape_all_books_request_budget_witness :
  requests_by_page
    (@run_events Fixture.platform 3 DEFAULT_CONFIG
       [Fixture.ok200 Fixture.page1_html; Fixture.status 503;
        Fixture.ok200 Fixture.page2_html])
  = [1; 2]%nat
  ∧ Forall (λ k, (k ≤ Z.to_nat (max_retries DEFAULT_CONFIG))%nat)
      (requests_by_page
         (@run_events Fixture.platform 3 DEFAULT_CONFIG
            [Fixture.ok200 Fixture.page1_html; Fixture.status 503;
             Fixture.ok200 Fixture.page2_html]))
  ∧ Forall (λ k, (k ≤ Z.to_nat (max_retries DEFAULT_CONFIG))%nat)
      (requests_by_page (@run_events LoopFixture.platform 7 DEFAULT_CONFIG tt)).
Proof.
  split; [reflexivity|]. split.
  - apply (@scrape_all_books_request_budget Fixture.platform).
  - apply (@scrape_all_books_request_budget LoopFixture.platform).
Defined.

(** X11, witness: the same two runs. *)
Lemma scrape_all_books_paced_witness :
  paced true
    (@run_events Fixture.platform 3 DEFAULT_CONFIG
       [Fixture.ok200 Fixture.page1_html; Fixture.status 503;
        Fixture.ok200 Fixture.page2_html]) = true
  ∧ paced true (@run_events LoopFixture.platform 7 DEFAULT_CONFIG tt) = true.
Proof.
  split.
  - apply (@scrape_all_books_paced Fixture.platform).
  - apply (@scrape_all_books_paced LoopFixture.platform).
Defined.

(** X12, witness: the first fixture page, then a page with a card that has
    no heading. *)
Lemma scrape_all_books_extractor_raises_witness :
  ∃ tr',
    @scrape_all_books Fixture.platform 2 DEFAULT_CONFIG
      [Fixture.ok200 Fixture.page1_html; Fixture.ok200 Fixture.no_heading_html]
    = Some (Raise (AttributeError "'NoneType' object has no attribute 'a'"),
            [], tr').
Proof.
  eapply (@scrape_all_books_extractor_raises Fixture.platform DEFAULT_CONFIG
            [Fixture.ok200 Fixture.page1_html;
             Fixture.ok200 Fixture.no_heading_html]
            Fixture.page1_url
            [[Fixture.row_a; Fixture.row_b]]
            [Fixture.ok200 Fixture.no_heading_html]
            "https://books.toscrape.com/catalogue/page-2.html").
  - reflexivity.
  - eapply reaches_next;
      [discriminate | reflexivity | reflexivity | discriminate |].
    apply reaches_here.
  - discriminate.
  - reflexivity.
  - reflexivity.
  - simpl. lia.
Defined.

(** X14, witness: the site whose first page links to itself, with fuel for
    a thousand passes. *)
Lemma scrape_all_books_self_link_diverges_witness :
  @scrape_all_books LoopFixture.platform 1000 DEFAULT_CONFIG tt = None.
Proof.
  eapply (@scrape_all_books_self_link_diverges LoopFixture.platform
            DEFAULT_CONFIG tt Fixture.page1_url [] tt Fixture.page1_url
            (Build_Response 200 LoopFixture.self_link_html)).
  - reflexivity.
  - apply reaches_here.
  - discriminate.
  - reflexivity.
  - reflexivity.
  - discriminate.
Defined.

(** * Further properties of cleaning and filtering *)

Section DropDuplicatesFacts.
Context {A : Type} (key : A → string).

Lemma drop_duplicates_from_sublist seen df :
  drop_duplicates_from key seen df `sublist_of` df.
Proof.
  revert seen. induction df as [|r df IH]; intros seen; simpl; [done|].
  case_bool_decide; [by apply sublist_cons|by apply sublist_skip].
Qed.

Lemma drop_duplicates_from_keys seen df k :
  k ∈ key <$> drop_duplicates_from key seen df
  ↔ k ∈ key <$> df ∧ k ∉ seen.
Proof.
  revert seen. induction df as [|r df IH]; intros seen; simpl.
  - rewrite elem_of_nil. tauto.
  - case_bool_decide as Hseen.
    + rewrite IH, elem_of_cons. split; [tauto|].
      intros [[->|?] ?]; [done|tauto].
    + rewrite fmap_cons, !elem_of_cons, IH, not_elem_of_union,
        elem_of_singleton.
      destruct (decide (k = key r)) as [->|Hne]; [tauto|]. tauto.
Qed.

Lemma drop_duplicates_from_NoDup_keys seen df :
  NoDup (key <$> drop_duplicates_from key seen df).
Proof.
  revert seen. induction df as [|r df IH]; intros seen; simpl.
  - constructor.
  - case_bool_decide as Hseen; [apply IH|].
    rewrite fmap_cons. apply NoDup_cons. split; [|apply IH].
    rewrite drop_duplicates_from_keys, not_elem_of_union, elem_of_singleton.
    tauto.
Qed.

Lemma drop_duplicates_from_first seen df r :
  r ∈ drop_duplicates_from key seen df →
  ∃ l1 l2, df = l1 ++ r :: l2 ∧ (key r ∉ key <$> l1) ∧ key r ∉ seen.
Proof.
  revert seen. induction df as [|r0 df IH]; intros seen; simpl.
  - by intros ?%not_elem_of_nil.
  - case_bool_decide as Hseen.
    + intros (l1 & l2 & -> & Hl1 & Hs)%IH.
      exists (r0 :: l1), l2. split; [done|]. split; [|done].
      rewrite fmap_cons, not_elem_of_cons. split; [|done].
      intros Heq. by rewrite Heq in Hs.
    + rewrite elem_of_cons. intros [->|Hr].
      * exists [], df. split; [done|]. split; [|done].
        apply not_elem_of_nil.
      * apply IH in Hr as (l1 & l2 & -> & Hl1 & Hs).
        apply not_elem_of_union in Hs as [Hne Hs].
        exists (r0 :: l1), l2. split; [done|]. split; [|done].
        rewrite fmap_cons, not_elem_of_cons. split; [|done].
        intros Heq. apply Hne. rewrite Heq. by apply elem_of_singleton.
Qed.

Lemma drop_duplicates_head df :
  head (drop_duplicates key df) = head df.
Proof.
  destruct df as [|r df]; [done|].
  unfold drop_duplicates. simpl.
  by rewrite bool_decide_eq_false_2 by apply not_elem_of_empty.
Qed.

End DropDuplicatesFacts.

Section SearchFacts.

Lemma match_ci_spec pat s :
  PyRe.match_ci pat s = true
  ↔ ∃ mid post, s = mid +:+ post
                ∧ PyRe.lower_string mid = PyRe.lower_string pat.
Proof.
  revert s. induction pat as [|p pat IH]; intros s.
  - split; [|done]. intros _. by exists "", s.
  - destruct s as [|c s]; simpl.
    + split; [done|]. intros ([|??] & post & ? & ?); done.
    + rewrite andb_true_iff, IH. split.
      * intros [Hc (mid & post & -> & Hmid)].
        apply Ascii.eqb_eq in Hc.
        exists (String c mid), post. split; [done|]. simpl. congruence.
      * intros ([|c' mid] & post & Hs & Hmid); [done|].
        rewrite append_cons in Hs. injection Hs as <- ->.
        simpl in Hmid. injection Hmid as Hc Hmid.
        split; [by apply Ascii.eqb_eq|]. by exists mid, post.
Qed.

Lemma search_ci_spec pat s :
  PyRe.search_ci pat s = true
  ↔ ∃ pre mid post, s = pre +:+ mid +:+ post
                    ∧ PyRe.lower_string mid = PyRe.lower_string pat.
Proof.
  induction s as [|c s IH].
  - simpl. rewrite orb_false_r, match_ci_spec. split.
    + intros (mid & post & ? & ?). by exists "", mid, post.
    + intros ([|??] & mid & post & Hs & ?); [|done]. by exists mid, post.
  - change (PyRe.search_ci pat (String c s))
      with (PyRe.match_ci pat (String c s) || PyRe.search_ci pat s).
    rewrite orb_true_iff, match_ci_spec, IH. split.
    + intros [(mid & post & ? & ?)|(pre & mid & post & -> & ?)].
      * by exists "", mid, post.
      * by exists (String c pre), mid, post.
    + intros ([|c' pre] & mid & post & Hs & ?).
      * left. by exists mid, post.
      * right. rewrite append_cons in Hs. injection Hs as <- ->.
        by exists pre, mid, post.
Qed.

End SearchFacts.

Section CleaningFacts.
Context `{Platform}.

Lemma clean_and_validate_inv_ok df cleaned :
  clean_and_validate df = Ok cleaned →
  df ≠ []
  ∧ cleaned
    = drop_duplicates_from (λ r, product_url (raw r)) ∅ (add_price_gbp <$> df).
Proof. destruct df as [|r df]; [done|]. by intros [= <-]. Qed.

End CleaningFacts.

Section CleaningExtras.
Context `{Platform}.
Variable number_lt : number → Z → bool.

(** X15.  The frame [clean_and_validate] returns has pairwise distinct
    product URLs, keeps the order of the rows it keeps, and loses no
    product URL of its input. *)
Theorem clean_and_validate_distinct_urls (df : list book_row)
    (cleaned : list clean_row) :
  clean_and_validate df = Ok cleaned →
  NoDup ((λ r, product_url (raw r)) <$> cleaned)
  ∧ cleaned `sublist_of` (add_price_gbp <$> df)
  ∧ ∀ u, u ∈ (λ r, product_url (raw r)) <$> cleaned ↔ u ∈ product_url <$> df.
Proof.
  intros [_ ->]%clean_and_validate_inv_ok.
  split; [apply drop_duplicates_from_NoDup_keys|].
  split; [apply drop_duplicates_from_sublist|].
  intros u. rewrite drop_duplicates_from_keys, <- list_fmap_compose.
  split; [tauto|]. intros Hu. split; [done|]. apply not_elem_of_empty.
Qed.

(** X16.  Of the rows with one product URL, [clean_and_validate] keeps the
    first: every row it returns is an input row, with its parsed price
    added, that no earlier input row shares its product URL with. *)
Theorem clean_and_validate_keeps_first (df : list book_row)
    (cleaned : list clean_row) (r : clean_row) :
  clean_and_validate df = Ok cleaned →
  r ∈ cleaned →
  ∃ before r0 after,
    df = before ++ r0 :: after
    ∧ r = add_price_gbp r0
    ∧ product_url r0 ∉ product_url <$> before.
Proof.
  intros [_ ->]%clean_and_validate_inv_ok Hr.
  apply drop_duplicates_from_first in Hr as (l1 & l2 & Hdf & Hfirst & _).
  apply fmap_app_inv in Hdf as (before & rest & -> & Hrest & ->).
  symmetry in Hrest. apply fmap_cons_inv in Hrest as (r0 & after & -> & -> & ->).
  exists before, r0, after. split; [done|]. split; [done|].
  by rewrite <- list_fmap_compose in Hfirst.
Qed.

(** X17.  [clean_and_validate] raises exactly on the empty frame.  On any
    other frame it returns a frame that is not empty, has at most as many
    rows, and starts with the first input row. *)
Theorem clean_and_validate_nonempty (df : list book_row) :
  (df = [] ↔ ∃ e, clean_and_validate df = Raise e)
  ∧ ∀ cleaned,
      clean_and_validate df = Ok cleaned →
      head cleaned = add_price_gbp <$> head df
      ∧ cleaned ≠ []
      ∧ (length cleaned ≤ length df)%nat.
Proof.
  split.
  - destruct df as [|r df]; [by split; [eexists|]|].
    split; [done|]. by intros [e [=]].
  - intros cleaned [Hdf ->]%clean_and_validate_inv_ok.
    pose proof (drop_duplicates_head (λ r, product_url (raw r))
                  (add_price_gbp <$> df)) as Hhead.
    unfold drop_duplicates in Hhead. split; [|split].
    + rewrite Hhead. by destruct df.
    + intros Hnil. rewrite Hnil in Hhead. by destruct df.
    + etrans; [apply sublist_length, drop_duplicates_from_sublist|].
      by rewrite length_fmap.
Qed.

(** X18.  Every row [filter_for_db] keeps has a parsed price below 30 and
    an availability that contains "in stock" in some letter case; rows are
    kept in order, no row satisfying both is dropped, and filtering again
    changes nothing. *)
Theorem filter_for_db_sound (df : list clean_row) :
  filter_for_db number_lt df `sublist_of` df
  ∧ filter_for_db number_lt (filter_for_db number_lt df)
    = filter_for_db number_lt df
  ∧ ∀ r, r ∈ filter_for_db number_lt df
         ↔ r ∈ df
           ∧ (∃ p, price_gbp r = Some p ∧ number_lt p 30 = true)
           ∧ ∃ pre mid post,
               availability (raw r) = pre +:+ mid +:+ post
               ∧ PyRe.lower_string mid = "in stock".
Proof.
  unfold filter_for_db. split; [|split].
  - induction df as [|r df IH]; simpl; [done|].
    destruct (_ && _); [by apply sublist_skip|by apply sublist_cons].
  - induction df as [|r df IH]; simpl; [done|].
    destruct (_ && _) eqn:Hr; [|done]. simpl. by rewrite Hr, IH.
  - intros r. rewrite list_elem_of_In, filter_In, <- list_elem_of_In,
      andb_true_iff.
    unfold mask_in_stock, mask_price. rewrite search_ci_spec.
    change (PyRe.lower_string "In stock") with "in stock".
    split.
    + intros (Hin & Hstock & Hprice). split; [done|]. split; [|done].
      destruct (price_gbp r) as [p|]; [|done]. by exists p.
    + intros (Hin & (p & -> & Hp) & Hstock). done.
Qed.

(** X19.  Cleaning then filtering gives a frame with pairwise distinct
    product URLs whose rows all come, in order, from the cleaned frame. *)
Theorem filter_for_db_after_clean (df : list book_row)
    (cleaned : list clean_row) :
  clean_and_validate df = Ok cleaned →
  NoDup ((λ r, product_url (raw r)) <$> filter_for_db number_lt cleaned)
  ∧ filter_for_db number_lt cleaned `sublist_of` (add_price_gbp <$> df).
Proof.
  intros [_ ->]%clean_and_validate_inv_ok.
  assert (∀ l : list clean_row, filter_for_db number_lt l `sublist_of` l)
    as Hsub.
  { unfold filter_for_db. induction l as [|r l IH]; simpl; [done|].
    destruct (_ && _); [by apply sublist_skip|by apply sublist_cons]. }
  split.
  - eapply sublist_NoDup; [|apply fmap_sublist, Hsub].
    apply drop_duplicates_from_NoDup_keys.
  - etrans; [apply Hsub|]. apply drop_duplicates_from_sublist.
Qed.

End CleaningExtras.

(** X7, witness: the page with a card that has no heading, and the first
    fixture page, which meets the four conditions. *)
Lemma parse_books_outcome_witness :
  Exists (λ card, heading_link card = None)
    (item_cards (@html_parser Fixture.platform Fixture.no_heading_html))
  ∧ ∃ rows next_url,
      @parse_books_from_catalog_page Fixture.platform Fixture.page1_html
        Fixture.page1_url = Ok (rows, next_url).
Proof.
  split.
  - exact (proj1 (@parse_books_outcome Fixture.platform
                    Fixture.no_heading_html Fixture.page1_url)).
  - apply (proj2 (@parse_books_outcome Fixture.platform Fixture.page1_html
                    Fixture.page1_url)).
    + vm_compute. repeat constructor; by eexists.
    + vm_compute. repeat constructor; intros h [= <-]; by eexists.
    + intros a. vm_compute. intros [= <-]. by eexists.
    + intros a h. vm_compute. intros [= <-] [= <-]. by eexists.
Defined.

(** X15, witness: three rows, the third repeating the URL of the first. *)
Lemma clean_and_validate_distinct_urls_witness :
  let df := [set_page_num 1 Fixture.row_a; set_page_num 1 Fixture.row_b;
             set_page_num 2 Fixture.row_a] in
  let cleaned := [Fixture.priced (set_page_num 1 Fixture.row_a) (Some "10.00");
                  Fixture.priced (set_page_num 1 Fixture.row_b) None] in
  NoDup ((λ r, product_url (raw r)) <$> cleaned)
  ∧ cleaned `sublist_of` (@add_price_gbp Fixture.platform <$> df)
  ∧ ∀ u, u ∈ (λ r, product_url (raw r)) <$> cleaned ↔ u ∈ product_url <$> df.
Proof.
  intros df cleaned.
  apply (@clean_and_validate_distinct_urls Fixture.platform df cleaned).
  reflexivity.
Defined.

(** X16, witness: the row kept for the repeated URL is the first one. *)
Lemma clean_and_validate_keeps_first_witness :
  let df := [set_page_num 1 Fixture.row_a; set_page_num 1 Fixture.row_b;
             set_page_num 2 Fixture.row_a] in
  ∃ before r0 after,
    df = before ++ r0 :: after
    ∧ Fixture.priced (set_page_num 1 Fixture.row_a) (Some "10.00")
      = @add_price_gbp Fixture.platform r0
    ∧ product_url r0 ∉ product_url <$> before.
Proof.
  intros df.
  apply (@clean_and_validate_keeps_first Fixture.platform df
           [Fixture.priced (set_page_num 1 Fixture.row_a) (Some "10.00");
            Fixture.priced (set_page_num 1 Fixture.row_b) None]).
  - reflexivity.
  - by left.
Defined.

(** X17, witness: the same frame, and the empty one. *)
Lemma clean_and_validate_nonempty_witness :
  let df := [set_page_num 1 Fixture.row_a; set_page_num 1 Fixture.row_b;
             set_page_num 2 Fixture.row_a] in
  let cleaned := [Fixture.priced (set_page_num 1 Fixture.row_a) (Some "10.00");
                  Fixture.priced (set_page_num 1 Fixture.row_b) None] in
  (∃ e, @clean_and_validate Fixture.platform [] = Raise e)
  ∧ head cleaned = @add_price_gbp Fixture.platform <$> head df
  ∧ cleaned ≠ []
  ∧ (length cleaned ≤ length df)%nat.
Proof.
  intros df cleaned. split.
  - by apply (proj1 (@clean_and_validate_nonempty Fixture.platform [])).
  - apply (proj2 (@clean_and_validate_nonempty Fixture.platform df) cleaned).
    reflexivity.
Defined.

(** X18, witness: of an in-stock row at 10.00, an in-stock row at 35.00 and
    an unpriced row, the first alone is kept. *)
Lemma filter_for_db_sound_witness :
  let cheap := Fixture.priced (set_page_num 1 Fixture.row_a) (Some "10.00") in
  let dear := Fixture.priced (set_page_num 1 Fixture.row_a) (Some "35.00") in
  let unpriced := Fixture.priced (set_page_num 1 Fixture.row_a) None in
  @filter_for_db Fixture.platform PriceFixture.price_lt [cheap; dear; unpriced]
  = [cheap]
  ∧ (∃ p, price_gbp cheap = Some p ∧ PriceFixture.price_lt p 30 = true)
  ∧ ∃ pre mid post,
      availability (raw cheap) = pre +:+ mid +:+ post
      ∧ PyRe.lower_string mid = "in stock".
Proof.
  intros cheap dear unpriced. split; [reflexivity|].
  apply (proj1 (proj2 (proj2 (@filter_for_db_sound Fixture.platform
                                PriceFixture.price_lt [cheap; dear; unpriced]))
                 cheap)).
  by left.
Defined.

(** X19, witness: cleaning then filtering the frame with a repeated URL. *)
Lemma filter_for_db_after_clean_witness :
  let df := [set_page_num 1 Fixture.row_a; set_page_num 1 Fixture.row_b;
             set_page_num 2 Fixture.row_a] in
  let cleaned := [Fixture.priced (set_page_num 1 Fixture.row_a) (Some "10.00");
                  Fixture.priced (set_page_num 1 Fixture.row_b) None] in
  NoDup ((λ r, product_url (raw r))
           <$> @filter_for_db Fixture.platform PriceFixture.price_lt cleaned)
  ∧ @filter_for_db Fixture.platform PriceFixture.price_lt cleaned
    `sublist_of` (@add_price_gbp Fixture.platform <$> df).
Proof.
  intros df cleaned.
  apply (@filter_for_db_after_clean Fixture.platform PriceFixture.price_lt
           df cleaned).
  reflexivity.
Defined.
